(** * HubProxy: a shallow embedding of the proxy's decision logic

    The development follows the Go sources of the repository:
    - the access controller (ParseDockerImage, matchImageInList, checkList,
      CheckDockerAccess, CheckGitHubAccess);
    - the configuration store (GetConfig, setConfig, hotReloadWithViper);
    - the per-IP rate limiter (initGlobalLimiter, normalizeIPForRateLimit,
      isIPInCIDRList, GetLimiter, RateLimitMiddleware);
    - the generic URL proxy (exps, checkURL, handler, proxyWithRedirect).

    Go strings are byte strings and are modelled as [string]; Go [int] values
    are modelled as [Z]; maps are [gmap]s. *)

From Stdlib Require Import ZArith QArith Lia Ascii String List Bool DecimalString.
From stdpp Require Import gmap strings list.
From Equations Require Import Equations.

#[local] Arguments String.append : simpl nomatch.

(** ** Go's [strings] package, as far as the sources use it *)

Module Strings.

(** [s[i:]] *)
Fixpoint slice_from (s : string) (i : nat) : string :=
  match i, s with
  | O, _ => s
  | S i', String _ s' => slice_from s' i'
  | S _, EmptyString => EmptyString
  end.

(** [s[:i]] *)
Fixpoint slice_to (s : string) (i : nat) : string :=
  match i, s with
  | O, _ => EmptyString
  | S i', String c s' => String c (slice_to s' i')
  | S _, EmptyString => EmptyString
  end.

Fixpoint HasPrefix (s prefix : string) {struct prefix} : bool :=
  match prefix, s with
  | EmptyString, _ => true
  | String c p', String d s' => Ascii.eqb c d && HasPrefix s' p'
  | String _ _, EmptyString => false
  end.

Definition TrimPrefix (s prefix : string) : string :=
  if HasPrefix s prefix then slice_from s (String.length prefix) else s.

Definition HasSuffix (s suffix : string) : bool :=
  (String.length suffix <=? String.length s)%nat &&
  String.eqb (slice_from s (String.length s - String.length suffix)) suffix.

Definition TrimSuffix (s suffix : string) : string :=
  if HasSuffix s suffix
  then slice_to s (String.length s - String.length suffix) else s.

(** [strings.Index]: the byte offset of the first occurrence, or [-1]. *)
Fixpoint Index (s substr : string) : Z :=
  if HasPrefix s substr then 0%Z
  else match s with
       | EmptyString => (-1)%Z
       | String _ s' =>
           let i := Index s' substr in
           if (i =? -1)%Z then (-1)%Z else (i + 1)%Z
       end.

Definition Contains (s substr : string) : bool :=
  (0 <=? Index s substr)%Z.

(** [strings.LastIndex]: the byte offset of the last occurrence, or [-1]. *)
Fixpoint LastIndex (s substr : string) : Z :=
  match s with
  | EmptyString => if HasPrefix s substr then 0%Z else (-1)%Z
  | String _ s' =>
      let i := LastIndex s' substr in
      if (i =? -1)%Z
      then (if HasPrefix s substr then 0%Z else (-1)%Z)
      else (i + 1)%Z
  end.

(** [strings.Split] with a one-byte separator, which is what every call
    site of the sources passes (["/"] and [","]). *)
Fixpoint Split (s : string) (sep : ascii) : list string :=
  match s with
  | EmptyString => [EmptyString]
  | String c s' =>
      if Ascii.eqb c sep then EmptyString :: Split s' sep
      else match Split s' sep with
           | [] => [String c EmptyString]
           | p :: ps => String c p :: ps
           end
  end.

(** [strings.Replace s old new 1]: the first occurrence only. *)
Fixpoint ReplaceFirst (s old new : string) : string :=
  if HasPrefix s old then new +:+ slice_from s (String.length old)
  else match s with
       | EmptyString => EmptyString
       | String c s' => String c (ReplaceFirst s' old new)
       end.

(** [strings.ToLower] on the ASCII letters; bytes outside [A-Z] are kept. *)
Definition lower_byte (c : ascii) : ascii :=
  let n := N_of_ascii c in
  if ((65 <=? n) && (n <=? 90))%N then ascii_of_N (n + 32) else c.

Fixpoint ToLower (s : string) : string :=
  match s with
  | EmptyString => EmptyString
  | String c s' => String (lower_byte c) (ToLower s')
  end.

(** [strings.TrimSpace] for the ASCII white space
    (tab, line feed, vertical tab, form feed, carriage return, space). *)
Definition is_space (c : ascii) : bool :=
  let n := N_of_ascii c in
  ((9 <=? n) && (n <=? 13) || (n =? 32))%N.

Fixpoint TrimLeftSpace (s : string) : string :=
  match s with
  | EmptyString => EmptyString
  | String c s' => if is_space c then TrimLeftSpace s' else s
  end.

Fixpoint TrimRightSpace (s : string) : string :=
  match s with
  | EmptyString => EmptyString
  | String c s' =>
      match TrimRightSpace s' with
      | EmptyString => if is_space c then EmptyString else String c EmptyString
      | r => String c r
      end
  end.

Definition TrimSpace (s : string) : string :=
  TrimRightSpace (TrimLeftSpace s).

(** [strings.Cut] with a one-byte separator: before, after, found. *)
Fixpoint Cut (s : string) (sep : ascii) : string * string * bool :=
  match s with
  | EmptyString => (EmptyString, EmptyString, false)
  | String c s' =>
      if Ascii.eqb c sep then (EmptyString, s', true)
      else let '(b, a, f) := Cut s' sep in (String c b, a, f)
  end.

End Strings.

(** ** [strconv] and [fmt], as far as the sources use them *)

Module Strconv.

Definition digit (c : ascii) : option Z :=
  let n := Z.of_N (N_of_ascii c) in
  if (48 <=? n)%Z && (n <=? 57)%Z then Some (n - 48)%Z else None.

Fixpoint digits (s : string) (acc : Z) : option Z :=
  match s with
  | EmptyString => Some acc
  | String c s' =>
      match digit c with
      | Some d => digits s' (acc * 10 + d)%Z
      | None => None
      end
  end.

Definition unsigned (s : string) : option Z :=
  match s with
  | EmptyString => None
  | _ => digits s 0%Z
  end.

(** [strconv.ParseInt(s, 10, 64)]: [None] is a syntax or a range error. *)
Definition ParseInt64 (s : string) : option Z :=
  let v :=
    match s with
    | String "+" s' => unsigned s'
    | String "-" s' => option_map Z.opp (unsigned s')
    | _ => unsigned s
    end in
  match v with
  | Some n => if (- 2 ^ 63 <=? n)%Z && (n <=? 2 ^ 63 - 1)%Z then Some n else None
  | None => None
  end.

(** The verb [%d] of [fmt.Sprintf]. *)
Definition FormatInt (n : Z) : string :=
  NilZero.string_of_int (Z.to_int n).

End Strconv.

(** ** The configuration record

    [AppConfig] with its nested structs.  [PeriodHours] is a [float64] in the
    source and an exact rational here; nothing below depends on rounding. *)

Record RegistryMapping := {
  Upstream : string;
  AuthHost : string;
  AuthType : string;
  Enabled : bool
}.

Record ServerConfig := {
  Host : string;
  Port : Z;
  FileSize : Z
}.

Record RateLimitConfig := {
  RequestLimit : Z;
  PeriodHours : Q
}.

(** The shape shared by the [Security] and the [Proxy] struct. *)
Record ListPair := {
  WhiteList : list string;
  BlackList : list string
}.

Record DownloadConfig := {
  MaxImages : Z
}.

Module TokenCacheConfig.
Record t := {
  Enabled : bool;
  DefaultTTL : string
}.
End TokenCacheConfig.

Record AppConfig := {
  Server : ServerConfig;
  RateLimit : RateLimitConfig;
  Security : ListPair;
  Proxy : ListPair;
  Download : DownloadConfig;
  Registries : gmap string RegistryMapping;
  TokenCache : TokenCacheConfig.t
}.

Definition DefaultConfig : AppConfig := {|
  Server := {| Host := "0.0.0.0"; Port := 5000; FileSize := 2 * 1024 * 1024 * 1024 |};
  RateLimit := {| RequestLimit := 20; PeriodHours := 1 |};
  Security := {| WhiteList := []; BlackList := [] |};
  Proxy := {| WhiteList := []; BlackList := [] |};
  Download := {| MaxImages := 10 |};
  Registries :=
    <["ghcr.io" := {| Upstream := "ghcr.io"; AuthHost := "ghcr.io/token";
                      AuthType := "github"; Enabled := true |}]>
    (<["gcr.io" := {| Upstream := "gcr.io"; AuthHost := "gcr.io/v2/token";
                      AuthType := "google"; Enabled := true |}]>
    (<["quay.io" := {| Upstream := "quay.io"; AuthHost := "quay.io/v2/auth";
                       AuthType := "quay"; Enabled := true |}]>
    (<["registry.k8s.io" := {| Upstream := "registry.k8s.io";
                               AuthHost := "registry.k8s.io";
                               AuthType := "anonymous"; Enabled := true |}]> ∅)));
  TokenCache := {| TokenCacheConfig.Enabled := true;
                   TokenCacheConfig.DefaultTTL := "20m" |}
|}.

(** ** Go's [net] package, as far as the rate limiter uses it

    An [IP] is a byte slice of length 4 or 16, a list of integers below 256.
    The parsers follow [net.ParseIP] and [net.ParseCIDR] (and the [netip]
    parsers behind them); an address with a zone is rejected by both. *)

Module Net.
Import Strings.

Definition IP := list Z.
Definition IPMask := list Z.

(** [net.IPNet]; [NetIP] is its field [IP]. *)
Record IPNet := {
  NetIP : IP;
  Mask : IPMask
}.

Definition IPv4len : nat := 4.
Definition IPv6len : nat := 16.

(** The conversion to [byte]. *)
Definition byte (x : Z) : Z := (x mod 256)%Z.

(** *** Parsing *)

Definition is_digit (c : ascii) : bool :=
  match Strconv.digit c with Some _ => true | None => false end.

Fixpoint all_digits (s : string) : bool :=
  match s with
  | EmptyString => true
  | String c s' => is_digit c && all_digits s'
  end.

(** One field of a dotted quad: decimal, no leading zero, at most 255. *)
Definition parse_octet (field : string) : option Z :=
  match field with
  | EmptyString => None
  | String c rest =>
      if negb (all_digits field) then None
      else if Ascii.eqb c "0" && negb (String.eqb rest "") then None
      else match Strconv.digits field 0 with
           | Some v => if (v >? 255)%Z then None else Some (byte v)
           | None => None
           end
  end.

Definition parseIPv4 (s : string) : option (list Z) :=
  match Split s "." with
  | [f0; f1; f2; f3] =>
      match parse_octet f0, parse_octet f1, parse_octet f2, parse_octet f3 with
      | Some b0, Some b1, Some b2, Some b3 => Some [b0; b1; b2; b3]
      | _, _, _, _ => None
      end
  | _ => None
  end.

Definition hex_val (c : ascii) : option Z :=
  let n := Z.of_N (N_of_ascii c) in
  if (48 <=? n)%Z && (n <=? 57)%Z then Some (n - 48)%Z
  else if (97 <=? n)%Z && (n <=? 102)%Z then Some (n - 97 + 10)%Z
  else if (65 <=? n)%Z && (n <=? 70)%Z then Some (n - 65 + 10)%Z
  else None.

(** The hex digits at the front of [s]: how many, their value, and the rest;
    [None] for more than four digits. *)
Fixpoint read_hex (s : string) (off : nat) (acc : Z) : option (nat * Z * string) :=
  match s with
  | EmptyString => Some (off, acc, s)
  | String c s' =>
      match hex_val c with
      | None => Some (off, acc, s)
      | Some d =>
          let acc := (Z.shiftl acc 4 + d)%Z in
          if (3 <? off)%nat then None
          else if (acc >? 65535)%Z then None
          else read_hex s' (S off) acc
      end
  end.

(** The loop of [parseIPv6] over the colon-separated fields: the bytes read
    so far are [ip], [ellipsis] is the position of ["::"] if it was seen.
    Every turn adds at least two bytes, so eight turns are enough. *)
Fixpoint v6_fields (turns : nat) (s : string) (ip : list Z) (ellipsis : option nat)
  : option (string * list Z * option nat) :=
  match turns with
  | O => Some (s, ip, ellipsis)
  | S turns' =>
      if negb (length ip <? 16)%nat then Some (s, ip, ellipsis)
      else
        match read_hex s 0 0 with
        | None => None
        | Some (off, acc, rest) =>
            if (off =? 0)%nat then None
            else
              match rest with
              | String "." _ =>
                  (* the trailing dotted quad *)
                  if match ellipsis with None => negb (length ip =? 12)%nat | Some _ => false end
                  then None
                  else if (16 <? length ip + 4)%nat then None
                  else match parseIPv4 s with
                       | Some v4 => Some (EmptyString, ip ++ v4, ellipsis)
                       | None => None
                       end
              | EmptyString =>
                  Some (EmptyString, ip ++ [byte (Z.shiftr acc 8); byte acc], ellipsis)
              | String ":" EmptyString => None
              | String ":" (String ":" rest2) =>
                  let ip := ip ++ [byte (Z.shiftr acc 8); byte acc] in
                  match ellipsis with
                  | Some _ => None
                  | None =>
                      match rest2 with
                      | EmptyString => Some (EmptyString, ip, Some (length ip))
                      | _ => v6_fields turns' rest2 ip (Some (length ip))
                      end
                  end
              | String ":" rest1 =>
                  v6_fields turns' rest1 (ip ++ [byte (Z.shiftr acc 8); byte acc]) ellipsis
              | String _ _ => None
              end
        end
  end.

(** The array [[16]byte]: exactly sixteen bytes. *)
Definition array16 (l : list Z) : list Z :=
  map byte (take 16 (l ++ replicate 16 0%Z)).

Definition parseIPv6 (s : string) : option (list Z) :=
  if Contains s "%" then None
  else
    let '(s, ellipsis, only) :=
      match s with
      | String ":" (String ":" rest) =>
          (rest, Some 0%nat, match rest with EmptyString => true | _ => false end)
      | _ => (s, None, false)
      end in
    if only then Some (array16 [])
    else
      match v6_fields 8 s [] ellipsis with
      | None => None
      | Some (rest, ip, ellipsis) =>
          if negb (String.eqb rest "") then None
          else if (length ip <? 16)%nat then
            match ellipsis with
            | None => None
            | Some e =>
                Some (array16 (take e ip ++ replicate (16 - length ip) 0%Z ++ drop e ip))
            end
          else match ellipsis with
               | Some _ => None
               | None => Some (array16 ip)
               end
      end.

(** [netip.Addr] without a zone. *)
Inductive Addr :=
| Addr4 (b : list Z)
| Addr6 (b : list Z).

(** The first of ['.'], [':'] and ['%'] in [s] decides how it is read. *)
Fixpoint family (s : string) : option ascii :=
  match s with
  | EmptyString => None
  | String c s' =>
      if Ascii.eqb c "." || Ascii.eqb c ":" || Ascii.eqb c "%" then Some c
      else family s'
  end.

Definition ParseAddr (s : string) : option Addr :=
  match family s with
  | Some "."%char => option_map Addr4 (parseIPv4 s)
  | Some ":"%char => option_map Addr6 (parseIPv6 s)
  | _ => None
  end.

Definition v4InV6Prefix : list Z := [0; 0; 0; 0; 0; 0; 0; 0; 0; 0; 255; 255]%Z.

Definition As16 (a : Addr) : IP :=
  match a with
  | Addr4 b => array16 (v4InV6Prefix ++ b)
  | Addr6 b => b
  end.

Definition BitLen (a : Addr) : Z :=
  match a with
  | Addr4 _ => 32
  | Addr6 _ => 128
  end.

(** [net.ParseIP]: the 16-byte form, [None] for Go's nil. *)
Definition ParseIP (s : string) : option IP :=
  option_map As16 (ParseAddr s).

(** *** Methods of [IP] *)

Definition isZeros (p : list Z) : bool := forallb (Z.eqb 0) p.

Definition To4 (ip : IP) : option IP :=
  if (length ip =? IPv4len)%nat then Some ip
  else if (length ip =? IPv6len)%nat && isZeros (take 10 ip) &&
          (nth 10 ip 0 =? 255)%Z && (nth 11 ip 0 =? 255)%Z
  then Some (drop 12 ip)
  else None.

Definition To16 (ip : IP) : option IP :=
  if (length ip =? IPv4len)%nat then Some (array16 (v4InV6Prefix ++ ip))
  else if (length ip =? IPv6len)%nat then Some ip
  else None.

Definition hexdigit (d : Z) : ascii :=
  if (d <? 10)%Z then ascii_of_N (Z.to_N (48 + d)) else ascii_of_N (Z.to_N (97 + d - 10)).

(** [appendHex]: lower-case hex without leading zeros. *)
Definition appendHex (x : Z) : string :=
  (if (x >=? 4096)%Z then String (hexdigit (Z.shiftr x 12)) EmptyString else EmptyString) +:+
  (if (x >=? 256)%Z then String (hexdigit (Z.land (Z.shiftr x 8) 15)) EmptyString else EmptyString) +:+
  (if (x >=? 16)%Z then String (hexdigit (Z.land (Z.shiftr x 4) 15)) EmptyString else EmptyString) +:+
  String (hexdigit (Z.land x 15)) EmptyString.

(** The eight 16-bit fields of a 16-byte address. *)
Fixpoint v6u16 (ip : list Z) : list Z :=
  match ip with
  | hi :: lo :: rest => (hi * 256 + lo)%Z :: v6u16 rest
  | _ => []
  end.

(** The number of zero fields at the front of [fields]. *)
Fixpoint zero_run (fields : list Z) : nat :=
  match fields with
  | 0%Z :: rest => S (zero_run rest)
  | _ => O
  end.

(** The first loop of [AppendTo6]: the longest run of at least two zero
    fields, the leftmost one among equals, as [(zeroStart, zeroEnd)]. *)
Fixpoint longest_zero_run (i : nat) (fields : list Z) (best : nat * nat) : nat * nat :=
  match fields with
  | [] => best
  | _ :: rest =>
      let l := zero_run fields in
      let best :=
        if (2 <=? l)%nat && (snd best - fst best <? l)%nat then (i, i + l)%nat else best in
      longest_zero_run (S i) rest best
  end.

(** The second loop of [AppendTo6], at field [i]: ["::"] is written at
    [zeroStart], the fields of the run are skipped, the field at [zeroEnd]
    follows the ["::"] directly, and every other field but the first has a
    [":"] before it. *)
Fixpoint write_fields (i : nat) (fields : list Z) (zeroStart zeroEnd : nat) : string :=
  match fields with
  | [] => EmptyString
  | x :: rest =>
      (if (i =? zeroStart)%nat then "::" else EmptyString) +:+
      (if (zeroStart <=? i)%nat && (i <? zeroEnd)%nat then EmptyString
       else (if (0 <? i)%nat && negb (i =? zeroEnd)%nat then ":" else EmptyString) +:+
            appendHex x) +:+
      write_fields (S i) rest zeroStart zeroEnd
  end.

Definition string6 (ip : IP) : string :=
  let fields := v6u16 ip in
  let '(zeroStart, zeroEnd) := longest_zero_run 0 fields (255, 255)%nat in
  write_fields 0 fields zeroStart zeroEnd.

Definition string4 (p4 : IP) : string :=
  Strconv.FormatInt (nth 0 p4 0%Z) +:+ "." +:+ Strconv.FormatInt (nth 1 p4 0%Z) +:+ "." +:+
  Strconv.FormatInt (nth 2 p4 0%Z) +:+ "." +:+ Strconv.FormatInt (nth 3 p4 0%Z).

Fixpoint hexString (b : list Z) : string :=
  match b with
  | [] => EmptyString
  | x :: rest =>
      String (hexdigit (Z.shiftr x 4)) (String (hexdigit (Z.land x 15)) (hexString rest))
  end.

(** [ip.String()] *)
Definition String_ (ip : IP) : string :=
  if (length ip =? 0)%nat then "<nil>"
  else if negb (length ip =? IPv4len)%nat && negb (length ip =? IPv6len)%nat
  then "?" +:+ hexString ip
  else match To4 ip with
       | Some p4 => string4 p4
       | None => string6 ip
       end.

(** *** Networks *)

(** [net.CIDRMask(ones, 8 * l)] *)
Fixpoint CIDRMask (l : nat) (ones : Z) : IPMask :=
  match l with
  | O => []
  | S l' =>
      if (ones >=? 8)%Z then 255%Z :: CIDRMask l' (ones - 8)
      else (255 - Z.shiftr 255 ones)%Z :: CIDRMask l' 0
  end.

Fixpoint and_bytes (a b : list Z) : list Z :=
  match a, b with
  | x :: a', y :: b' => Z.land x y :: and_bytes a' b'
  | _, _ => []
  end.

Definition allFF (b : list Z) : bool := forallb (Z.eqb 255) b.

(** [ip.Mask(mask)]; the empty list is Go's nil. *)
Definition Mask_ (ip : IP) (mask : IPMask) : IP :=
  let mask :=
    if (length mask =? IPv6len)%nat && (length ip =? IPv4len)%nat && allFF (take 12 mask)
    then drop 12 mask else mask in
  let ip :=
    if (length mask =? IPv4len)%nat && (length ip =? IPv6len)%nat &&
       bool_decide (take 12 ip = v4InV6Prefix)
    then drop 12 ip else ip in
  if negb (length ip =? length mask)%nat then []
  else and_bytes ip mask.

(** [net.ParseCIDR]: the address and the network, [None] for an error. *)
Definition ParseCIDR (s : string) : option (IP * IPNet) :=
  let '(addr, mask, found) := Cut s "/" in
  if negb found then None
  else
    match ParseAddr addr with
    | None => None
    | Some ipAddr =>
        match (if all_digits mask then Strconv.unsigned mask else None) with
        | None => None
        | Some n =>
            if (n >? 16777215)%Z || (n >? BitLen ipAddr)%Z then None
            else
              let m := CIDRMask (Z.to_nat (BitLen ipAddr / 8)) n in
              let addr16 := As16 ipAddr in
              Some (addr16, {| NetIP := Mask_ addr16 m; Mask := m |})
        end
    end.

Definition networkNumberAndMask (n : IPNet) : option (IP * IPMask) :=
  let ip :=
    match To4 (NetIP n) with
    | Some ip4 => Some ip4
    | None => if negb (length (NetIP n) =? IPv6len)%nat then None else Some (NetIP n)
    end in
  match ip with
  | None => None
  | Some ip =>
      if (length (Mask n) =? IPv4len)%nat then
        if negb (length ip =? IPv4len)%nat then None else Some (ip, Mask n)
      else if (length (Mask n) =? IPv6len)%nat then
        if (length ip =? IPv4len)%nat then Some (ip, drop 12 (Mask n))
        else Some (ip, Mask n)
      else None
  end.

(** [n.Contains(ip)] *)
Definition Contains_ (n : IPNet) (ip : IP) : bool :=
  match networkNumberAndMask n with
  | None => false
  | Some (nn, m) =>
      let ip := match To4 ip with Some x => x | None => ip end in
      if negb (length ip =? length nn)%nat then false
      else bool_decide (and_bytes nn m = and_bytes ip m)
  end.

(** [net.SplitHostPort]: host and port, [None] for an error. *)
Definition SplitHostPort (hostport : string) : option (string * string) :=
  let i := LastIndex hostport ":" in
  if (i <? 0)%Z then None
  else
    let bracketed :=
      match hostport with
      | String "[" _ =>
          let end_ := Index hostport "]" in
          if (end_ <? 0)%Z then None
          else if (end_ + 1 =? Z.of_nat (String.length hostport))%Z then None
          else if (end_ + 1 =? i)%Z
          then Some (slice_to (slice_from hostport 1) (Z.to_nat end_ - 1), 1%nat,
                     Z.to_nat (end_ + 1))
          else None
      | _ =>
          let host := slice_to hostport (Z.to_nat i) in
          if (0 <=? Index host ":")%Z then None else Some (host, 0%nat, 0%nat)
      end in
    match bracketed with
    | None => None
    | Some (host, j, k) =>
        if (0 <=? Index (slice_from hostport j) "[")%Z then None
        else if (0 <=? Index (slice_from hostport k) "]")%Z then None
        else Some (host, slice_from hostport (Z.to_nat (i + 1)))
    end.

End Net.

(** ** The configuration store

    The package variables [appConfig], [cachedConfig] and [configCacheTime]
    are the fields of an explicit state; the locks are not modelled.  Times
    are in nanoseconds. *)

Module Config.
Import Strings.

Record State := {
  appConfig : option AppConfig;         (* nil before the first setConfig *)
  cachedConfig : option AppConfig;
  configCacheTime : Z
}.

Definition initial : State :=
  {| appConfig := None; cachedConfig := None; configCacheTime := 0 |}.

Definition configCacheTTL : Z := 5 * 1000000000.

(** What the program did besides changing the state. *)
Inductive event :=
| CalledSetConfig (cfg : AppConfig)
| CalledUpdateAffectedComponents
| Printed (line : string).

(** The copy GetConfig makes: the struct, with the four lists copied by
    [append([]string(nil), list...)]. *)
Definition copy_config (cfg : AppConfig) : AppConfig :=
  {| Server := Server cfg;
     RateLimit := RateLimit cfg;
     Security := {| WhiteList := [] ++ WhiteList (Security cfg);
                    BlackList := [] ++ BlackList (Security cfg) |};
     Proxy := {| WhiteList := [] ++ WhiteList (Proxy cfg);
                 BlackList := [] ++ BlackList (Proxy cfg) |};
     Download := Download cfg;
     Registries := Registries cfg;
     TokenCache := TokenCache cfg |}.

Definition cache_fresh (now : Z) (st : State) : option AppConfig :=
  match cachedConfig st with
  | Some config =>
      if (now - configCacheTime st <? configCacheTTL)%Z then Some config else None
  | None => None
  end.

(** GetConfig at time [now]: the configuration returned and the new state. *)
Definition GetConfig (now : Z) (st : State) : AppConfig * State :=
  match cache_fresh now st with
  | Some config => (config, st)
  | None =>
      (* the second look under the write lock *)
      match cache_fresh now st with
      | Some config => (config, st)
      | None =>
          match appConfig st with
          | None =>
              let defaultCfg := DefaultConfig in
              (defaultCfg,
               {| appConfig := appConfig st;
                  cachedConfig := Some defaultCfg;
                  configCacheTime := now |})
          | Some cfg =>
              let configCopy := copy_config cfg in
              (configCopy,
               {| appConfig := appConfig st;
                  cachedConfig := Some configCopy;
                  configCacheTime := now |})
          end
      end
  end.

Definition setConfig (cfg : AppConfig) (st : State) : State :=
  {| appConfig := Some cfg;
     cachedConfig := None;
     configCacheTime := configCacheTime st |}.

Section WithEnvironment.

(** [os.Getenv] *)
Variable Getenv : string -> string.

(** [strconv.ParseFloat(val, 64)], with the float read as a rational. *)
Variable ParseFloat : string -> option Q.

Definition with_server (f : ServerConfig -> ServerConfig) (cfg : AppConfig) : AppConfig :=
  {| Server := f (Server cfg); RateLimit := RateLimit cfg; Security := Security cfg;
     Proxy := Proxy cfg; Download := Download cfg; Registries := Registries cfg;
     TokenCache := TokenCache cfg |}.

Definition with_rateLimit (f : RateLimitConfig -> RateLimitConfig) (cfg : AppConfig) : AppConfig :=
  {| Server := Server cfg; RateLimit := f (RateLimit cfg); Security := Security cfg;
     Proxy := Proxy cfg; Download := Download cfg; Registries := Registries cfg;
     TokenCache := TokenCache cfg |}.

Definition with_security (f : ListPair -> ListPair) (cfg : AppConfig) : AppConfig :=
  {| Server := Server cfg; RateLimit := RateLimit cfg; Security := f (Security cfg);
     Proxy := Proxy cfg; Download := Download cfg; Registries := Registries cfg;
     TokenCache := TokenCache cfg |}.

Definition with_download (f : DownloadConfig -> DownloadConfig) (cfg : AppConfig) : AppConfig :=
  {| Server := Server cfg; RateLimit := RateLimit cfg; Security := Security cfg;
     Proxy := Proxy cfg; Download := f (Download cfg); Registries := Registries cfg;
     TokenCache := TokenCache cfg |}.

(** [if n, err := strconv.Atoi(val); err == nil && n > 0] *)
Definition positive_int (val : string) : option Z :=
  match Strconv.ParseInt64 val with
  | Some n => if (n >? 0)%Z then Some n else None
  | None => None
  end.

Definition overrideFromEnv (cfg : AppConfig) : AppConfig :=
  let cfg :=
    let val := Getenv "SERVER_HOST" in
    if negb (String.eqb val "")
    then with_server (fun sv => {| Host := val; Port := Port sv; FileSize := FileSize sv |}) cfg
    else cfg in
  let cfg :=
    match positive_int (Getenv "SERVER_PORT") with
    | Some port =>
        with_server (fun sv => {| Host := Host sv; Port := port; FileSize := FileSize sv |}) cfg
    | None => cfg
    end in
  let cfg :=
    match positive_int (Getenv "MAX_FILE_SIZE") with
    | Some size =>
        with_server (fun sv => {| Host := Host sv; Port := Port sv; FileSize := size |}) cfg
    | None => cfg
    end in
  let cfg :=
    match positive_int (Getenv "RATE_LIMIT") with
    | Some limit =>
        with_rateLimit (fun r => {| RequestLimit := limit; PeriodHours := PeriodHours r |}) cfg
    | None => cfg
    end in
  let cfg :=
    match ParseFloat (Getenv "RATE_PERIOD_HOURS") with
    | Some period =>
        if Qlt_le_dec 0 period
        then with_rateLimit (fun r => {| RequestLimit := RequestLimit r; PeriodHours := period |}) cfg
        else cfg
    | None => cfg
    end in
  let cfg :=
    let val := Getenv "IP_WHITELIST" in
    if negb (String.eqb val "")
    then with_security (fun l => {| WhiteList := WhiteList l ++ Split val ",";
                                    BlackList := BlackList l |}) cfg
    else cfg in
  let cfg :=
    let val := Getenv "IP_BLACKLIST" in
    if negb (String.eqb val "")
    then with_security (fun l => {| WhiteList := WhiteList l;
                                    BlackList := BlackList l ++ Split val "," |}) cfg
    else cfg in
  match positive_int (Getenv "MAX_IMAGES") with
  | Some maxImages => with_download (fun _ => {| MaxImages := maxImages |}) cfg
  | None => cfg
  end.

(** LoadConfig.  [file] is what [os.ReadFile("config.toml")] returns ([None]
    for an error) and [tomlUnmarshal data cfg] is [toml.Unmarshal]: an error
    text, or [cfg] with the file's values filled in. *)
Definition LoadConfig (file : option string)
           (tomlUnmarshal : string -> AppConfig -> string + AppConfig)
           (st : State) : option string * State * list event :=
  let cfg := DefaultConfig in
  let parsed :=
    match file with
    | Some data => tomlUnmarshal data cfg
    | None => inr cfg
    end in
  match parsed with
  | inl err => (Some ("解析配置文件失败: " +:+ err), st, [])
  | inr cfg =>
      let cfg := overrideFromEnv cfg in
      (None, setConfig cfg st, [CalledSetConfig cfg])
  end.

(** hotReloadWithViper.  [viperUnmarshal cfg] is [viperInstance.Unmarshal]
    for the settings viper has read: an error text, or [cfg] with the
    settings filled in. *)
Definition hotReloadWithViper (viperUnmarshal : AppConfig -> string + AppConfig)
           (st : State) : State * list event :=
  let cfg := DefaultConfig in
  match viperUnmarshal cfg with
  | inl err => (st, [Printed ("❌ 配置解析失败: " +:+ err)])
  | inr cfg =>
      let cfg := overrideFromEnv cfg in
      (setConfig cfg st, [CalledSetConfig cfg; CalledUpdateAffectedComponents])
  end.

End WithEnvironment.

(** The snapshot new readers are to see: the configuration last passed to
    setConfig, the defaults before that. *)
Definition published (st : State) : AppConfig :=
  match appConfig st with
  | Some cfg => cfg
  | None => DefaultConfig
  end.

(** A run of GetConfig calls at the given times: the configurations they
    return, in order. *)
Fixpoint GetConfig_run (times : list Z) (st : State) : list AppConfig :=
  match times with
  | [] => []
  | now :: rest =>
      let '(cfg, st') := GetConfig now st in
      cfg :: GetConfig_run rest st'
  end.

End Config.

(** ** The access controller *)

Module AccessController.
Import Strings.

Record DockerImageInfo := {
  Namespace : string;
  Repository : string;
  Tag : string;
  FullName : string
}.

(** [parts[i]] of a slice whose length the caller has checked. *)
Definition at_ (parts : list string) (i : nat) : string :=
  nth i parts EmptyString.

Definition ParseDockerImage (image : string) : DockerImageInfo :=
  let image := TrimPrefix image "docker://" in
  let '(tag, image) :=
    let idx := LastIndex image ":" in
    if negb (idx =? -1)%Z then
      let part := slice_from image (Z.to_nat (idx + 1)) in
      if negb (Contains part "/")
      then (part, slice_to image (Z.to_nat idx))
      else (EmptyString, image)
    else (EmptyString, image) in
  let tag := if String.eqb tag "" then "latest" else tag in
  let '(namespace, repository) :=
    if Contains image "/" then
      let parts := Split image "/" in
      if (2 <=? length parts)%nat then
        if Contains (at_ parts 0) "." then
          if (3 <=? length parts)%nat
          then (at_ parts 1, at_ parts 2)
          else ("library", at_ parts 1)
        else (at_ parts 0, at_ parts 1)
      else (EmptyString, EmptyString)
    else ("library", image) in
  {| Namespace := namespace;
     Repository := repository;
     Tag := tag;
     FullName := namespace +:+ "/" +:+ repository |}.

(** One iteration of the loop of matchImageInList on the raw list entry:
    [true] is the loop's [return true], [false] falls through to the next
    entry (this covers the [continue] on an empty entry). *)
Definition matchImageItem (imageInfo : DockerImageInfo) (item : string) : bool :=
  let fullName := ToLower (FullName imageInfo) in
  let namespace := ToLower (Namespace imageInfo) in
  let item := ToLower (TrimSpace item) in
  if String.eqb item "" then false
  else if String.eqb fullName item then true
  else if String.eqb item namespace || String.eqb item (namespace +:+ "/*") then true
  else if HasSuffix item "*" && HasPrefix fullName (TrimSuffix item "*") then true
  else if HasPrefix item "*/" &&
          (let repoPattern := TrimPrefix item "*/" in
           if HasSuffix repoPattern "*"
           then HasPrefix (Repository imageInfo) (TrimSuffix repoPattern "*")
           else String.eqb (ToLower (Repository imageInfo)) repoPattern) then true
  else HasPrefix fullName (item +:+ "/").

Fixpoint matchImageInList (imageInfo : DockerImageInfo) (list : list string) : bool :=
  match list with
  | [] => false
  | item :: rest =>
      if matchImageItem imageInfo item then true
      else matchImageInList imageInfo rest
  end.

(** One iteration of the loop of checkList, for the already normalised
    [username] and [fullRepo]. *)
Definition checkListItem (username fullRepo item : string) : bool :=
  let item := ToLower (TrimSpace item) in
  if String.eqb item "" then false
  else if String.eqb fullRepo item then true
  else if String.eqb item username || String.eqb item (username +:+ "/*") then true
  else if HasSuffix item "*" && HasPrefix fullRepo (TrimSuffix item "*") then true
  else HasPrefix fullRepo (item +:+ "/").

Fixpoint checkListLoop (username fullRepo : string) (list : list string) : bool :=
  match list with
  | [] => false
  | item :: rest =>
      if checkListItem username fullRepo item then true
      else checkListLoop username fullRepo rest
  end.

Definition checkList (matches list : list string) : bool :=
  if (length matches <? 2)%nat then false
  else
    let username := ToLower (TrimSpace (at_ matches 0)) in
    let repoName := ToLower (TrimSpace (TrimSuffix (at_ matches 1) ".git")) in
    let fullRepo := username +:+ "/" +:+ repoName in
    checkListLoop username fullRepo list.

Definition CheckDockerAccess (cfg : AppConfig) (image : string) : bool * string :=
  let imageInfo := ParseDockerImage image in
  if (0 <? length (WhiteList (Proxy cfg)))%nat &&
     negb (matchImageInList imageInfo (WhiteList (Proxy cfg)))
  then (false, "不在Docker镜像白名单内")
  else if (0 <? length (BlackList (Proxy cfg)))%nat &&
          matchImageInList imageInfo (BlackList (Proxy cfg))
  then (false, "Docker镜像在黑名单内")
  else (true, EmptyString).

Definition CheckGitHubAccess (cfg : AppConfig) (matches : list string) : bool * string :=
  if (length matches <? 2)%nat then (false, "无效的GitHub仓库格式")
  else if (0 <? length (WhiteList (Proxy cfg)))%nat &&
          negb (checkList matches (WhiteList (Proxy cfg)))
  then (false, "不在GitHub仓库白名单内")
  else if (0 <? length (BlackList (Proxy cfg)))%nat &&
          checkList matches (BlackList (Proxy cfg))
  then (false, "GitHub仓库在黑名单内")
  else (true, EmptyString).

End AccessController.

(** ** Go's [regexp] package, for the operators the pattern table uses

    A backtracking matcher in continuation-passing style.  It tries the
    alternatives in Go's leftmost-first order (left branch of an alternation
    first, more repetitions first for a greedy operator and fewer first for a
    lazy one), so the first match it finds is the match Go reports, with the
    same submatches.  The repeated atoms of the table are one-character
    classes; the classes are read byte by byte, which agrees with Go's reading
    by code point because ['/'] and the line feed are one-byte characters. *)

Module Regexp.
Import Strings.

Inductive class :=
| AnyChar                (* [.]    : any character but the line feed *)
| NotByte (c : ascii).   (* [[^c]] : any character but [c] *)

Definition class_match (k : class) (c : ascii) : bool :=
  match k with
  | AnyChar => negb (Ascii.eqb c "010")
  | NotByte x => negb (Ascii.eqb c x)
  end.

Inductive regex :=
| Empty
| BeginText                                   (* [^] *)
| EndText                                     (* [$] *)
| Lit (s : string)
| Repeat (k : class) (min : nat) (greedy : bool)
| Cat (r1 r2 : regex)
| Alt (r1 r2 : regex)
| Opt (r : regex)                             (* [(?:r)?] *)
| Group (i : nat) (r : regex).                (* the [i]-th capture group *)

(** [k*] is [Repeat k 0 true], [k+] is [Repeat k 1 true] and [k+?] is
    [Repeat k 1 false]. *)
Definition Star (k : class) : regex := Repeat k 0 true.
Definition Plus (k : class) : regex := Repeat k 1 true.
Definition PlusLazy (k : class) : regex := Repeat k 1 false.

Definition Seq (rs : list regex) : regex := fold_right Cat Empty rs.

(** The submatches: entry [i] is the text of group [i] (entry 0 the whole
    match), the empty string for a group that did not take part. *)
Definition captures := list string.

Fixpoint repeat_match (k : class) (greedy : bool) (min : nat) (s : string)
         (cont : string -> option captures) : option captures :=
  let stop := match min with O => cont s | S _ => None end in
  let more :=
    match s with
    | EmptyString => None
    | String c s' =>
        if class_match k c
        then repeat_match k greedy (Nat.pred min) s' cont
        else None
    end in
  if greedy
  then match more with Some r => Some r | None => stop end
  else match stop with Some r => Some r | None => more end.

(** [run r n s cs cont]: match [r] at the front of [s], a suffix of a text
    of length [n], and hand the rest of the text to [cont]. *)
Fixpoint run (r : regex) (n : nat) (s : string) (cs : captures)
         (cont : string -> captures -> option captures) : option captures :=
  match r with
  | Empty => cont s cs
  | BeginText => if (String.length s =? n)%nat then cont s cs else None
  | EndText => match s with EmptyString => cont s cs | String _ _ => None end
  | Lit l =>
      if HasPrefix s l then cont (slice_from s (String.length l)) cs else None
  | Repeat k min greedy =>
      repeat_match k greedy min s (fun s' => cont s' cs)
  | Cat r1 r2 => run r1 n s cs (fun s' cs' => run r2 n s' cs' cont)
  | Alt r1 r2 =>
      match run r1 n s cs cont with
      | Some res => Some res
      | None => run r2 n s cs cont
      end
  | Opt r1 =>
      match run r1 n s cs cont with
      | Some res => Some res
      | None => cont s cs
      end
  | Group i r1 =>
      run r1 n s cs
          (fun s' cs' =>
             cont s' (<[i := slice_to s (String.length s - String.length s')]> cs'))
  end.

Fixpoint NumSubexp (r : regex) : nat :=
  match r with
  | Group i r1 => Nat.max i (NumSubexp r1)
  | Cat r1 r2 | Alt r1 r2 => Nat.max (NumSubexp r1) (NumSubexp r2)
  | Opt r1 => NumSubexp r1
  | _ => O
  end.

(** The leftmost match: the first start offset at which [r] matches. *)
Fixpoint search (r : regex) (n : nat) (s : string) : option captures :=
  match run (Group 0 r) n s (replicate (S (NumSubexp r)) EmptyString)
            (fun _ cs => Some cs) with
  | Some res => Some res
  | None =>
      match s with
      | EmptyString => None
      | String _ s' => search r n s'
      end
  end.

(** [FindStringSubmatch]: [None] is Go's nil slice. *)
Definition FindStringSubmatch (r : regex) (text : string) : option (list string) :=
  search r (String.length text) text.

Definition MatchString (r : regex) (text : string) : bool :=
  match FindStringSubmatch r text with Some _ => true | None => false end.

End Regexp.

(** ** The URL pattern table *)

Module UrlTable.
Import Strings Regexp.

Definition NotSlash : class := NotByte "/".

(** [(?:https?://)?] *)
Definition scheme : regex :=
  Opt (Seq [Lit "http"; Opt (Lit "s"); Lit "://"]).

Definition exps : list regex := [
  (* ^(?:https?://)?github\.com/([^/]+)/([^/]+)/(?:releases|archive)/.*$ *)
  Seq [BeginText; scheme; Lit "github.com/"; Group 1 (Plus NotSlash); Lit "/";
       Group 2 (Plus NotSlash); Lit "/"; Alt (Lit "releases") (Lit "archive");
       Lit "/"; Star AnyChar; EndText];
  (* ^(?:https?://)?github\.com/([^/]+)/([^/]+)/(?:blob|raw)/.*$ *)
  Seq [BeginText; scheme; Lit "github.com/"; Group 1 (Plus NotSlash); Lit "/";
       Group 2 (Plus NotSlash); Lit "/"; Alt (Lit "blob") (Lit "raw");
       Lit "/"; Star AnyChar; EndText];
  (* ^(?:https?://)?github\.com/([^/]+)/([^/]+)/(?:info|git-).*$ *)
  Seq [BeginText; scheme; Lit "github.com/"; Group 1 (Plus NotSlash); Lit "/";
       Group 2 (Plus NotSlash); Lit "/"; Alt (Lit "info") (Lit "git-");
       Star AnyChar; EndText];
  (* ^(?:https?://)?raw\.github(?:usercontent|)\.com/([^/]+)/([^/]+)/.+?/.+$ *)
  Seq [BeginText; scheme; Lit "raw.github"; Alt (Lit "usercontent") Empty;
       Lit ".com/"; Group 1 (Plus NotSlash); Lit "/"; Group 2 (Plus NotSlash);
       Lit "/"; PlusLazy AnyChar; Lit "/"; Plus AnyChar; EndText];
  (* ^(?:https?://)?gist\.github(?:usercontent|)\.com/([^/]+)/.+?/.+ *)
  Seq [BeginText; scheme; Lit "gist.github"; Alt (Lit "usercontent") Empty;
       Lit ".com/"; Group 1 (Plus NotSlash); Lit "/"; PlusLazy AnyChar; Lit "/";
       Plus AnyChar];
  (* ^(?:https?://)?api\.github\.com/repos/([^/]+)/([^/]+)/.* *)
  Seq [BeginText; scheme; Lit "api.github.com/repos/"; Group 1 (Plus NotSlash);
       Lit "/"; Group 2 (Plus NotSlash); Lit "/"; Star AnyChar];
  (* ^(?:https?://)?huggingface\.co(?:/spaces)?/([^/]+)/(.+)$ *)
  Seq [BeginText; scheme; Lit "huggingface.co"; Opt (Lit "/spaces"); Lit "/";
       Group 1 (Plus NotSlash); Lit "/"; Group 2 (Plus AnyChar); EndText];
  (* ^(?:https?://)?cdn-lfs\.hf\.co(?:/spaces)?/([^/]+)/([^/]+)(?:/(.* ))?$
     (the blank after the star is not part of the pattern) *)
  Seq [BeginText; scheme; Lit "cdn-lfs.hf.co"; Opt (Lit "/spaces"); Lit "/";
       Group 1 (Plus NotSlash); Lit "/"; Group 2 (Plus NotSlash);
       Opt (Seq [Lit "/"; Group 3 (Star AnyChar)]); EndText];
  (* ^(?:https?://)?download\.docker\.com/([^/]+)/.*\.(tgz|zip)$ *)
  Seq [BeginText; scheme; Lit "download.docker.com/"; Group 1 (Plus NotSlash);
       Lit "/"; Star AnyChar; Lit "."; Group 2 (Alt (Lit "tgz") (Lit "zip"));
       EndText];
  (* ^(?:https?://)?(github|opengraph)\.githubassets\.com/([^/]+)/.+?$ *)
  Seq [BeginText; scheme; Group 1 (Alt (Lit "github") (Lit "opengraph"));
       Lit ".githubassets.com/"; Group 2 (Plus NotSlash); Lit "/";
       PlusLazy AnyChar; EndText]
].

(** [exps[i]] *)
Definition exp (i : nat) : regex := nth i exps Empty.

Fixpoint first_match (table : list regex) (u : string) : option (list string) :=
  match table with
  | [] => None
  | e :: rest =>
      match FindStringSubmatch e u with
      | Some matches => Some (tail matches)      (* matches[1:] *)
      | None => first_match rest u
      end
  end.

Definition checkURL (u : string) : option (list string) := first_match exps u.

End UrlTable.

(** ** [net/http] headers, requests and responses, and gin's context *)

Module Http.

(** [http.Header]; the keys are kept in their canonical form. *)
Definition Header := gmap string (list string).

Definition Get (h : Header) (key : string) : string :=
  match h !! key with
  | Some (v :: _) => v
  | _ => EmptyString
  end.

Definition Set_ (h : Header) (key value : string) : Header :=
  <[key := [value]]> h.

Definition Add (h : Header) (key value : string) : Header :=
  <[key := default [] (h !! key) ++ [value]]> h.

Definition Del (h : Header) (key : string) : Header := delete key h.

(** The inbound request, [c.Request].  The body stream is not modelled. *)
Record Request := {
  Method : string;
  RequestURI : string;        (* c.Request.URL.RequestURI() *)
  Path : string;              (* c.Request.URL.Path *)
  ReqHeader : Header;
  Host : string;
  ClientIP : string           (* c.ClientIP() *)
}.

(** A request sent upstream. *)
Record OutRequest := {
  OutMethod : string;
  URL : string;
  OutHeader : Header
}.

(** An upstream response. *)
Record Response := {
  StatusCode : Z;
  RespHeader : Header;
  Body : string
}.

Definition StatusForbidden : Z := 403.
Definition StatusRequestEntityTooLarge : Z := 413.
Definition StatusTooManyRequests : Z := 429.
Definition StatusInternalServerError : Z := 500.
Definition StatusLoopDetected : Z := 508.

End Http.

Module Gin.
Import Http.

(** [gin.Context]: the request, what has been sent to the client so far,
    and whether the handler chain was aborted. *)
Record Context := {
  Request : Http.Request;
  Status : Z;
  Header : Http.Header;
  Written : string;
  Aborted : bool
}.

Definition set_status (code : Z) (c : Context) : Context :=
  {| Request := Request c; Status := code; Header := Header c;
     Written := Written c; Aborted := Aborted c |}.

Definition set_header (h : Http.Header) (c : Context) : Context :=
  {| Request := Request c; Status := Status c; Header := h;
     Written := Written c; Aborted := Aborted c |}.

Definition write (body : string) (c : Context) : Context :=
  {| Request := Request c; Status := Status c; Header := Header c;
     Written := Written c +:+ body; Aborted := Aborted c |}.

(** [c.Abort()] *)
Definition Abort (c : Context) : Context :=
  {| Request := Request c; Status := Status c; Header := Header c;
     Written := Written c; Aborted := true |}.

(** [c.Header(key, value)]: an empty value deletes the key. *)
Definition SetHeader (key value : string) (c : Context) : Context :=
  if String.eqb value "" then set_header (Del (Header c) key) c
  else set_header (Set_ (Header c) key value) c.

(** The content type is written only when none is set yet. *)
Definition writeContentType (value : string) (c : Context) : Context :=
  match Header c !! "Content-Type" with
  | Some (_ :: _) => c
  | _ => set_header (<["Content-Type" := [value]]> (Header c)) c
  end.

(** [c.String(code, text)] *)
Definition String_ (code : Z) (text : string) (c : Context) : Context :=
  write text (writeContentType "text/plain; charset=utf-8" (set_status code c)).

Definition quote : string := String "034" EmptyString.

(** [gin.H{"error": msg}] as json.Marshal writes it, for a message without
    characters that need escaping. *)
Definition error_object (msg : string) : string :=
  "{" +:+ quote +:+ "error" +:+ quote +:+ ":" +:+ quote +:+ msg +:+ quote +:+ "}".

(** [c.JSON(code, gin.H{"error": msg})] *)
Definition JSON_error (code : Z) (msg : string) (c : Context) : Context :=
  write (error_object msg)
        (writeContentType "application/json; charset=utf-8" (set_status code c)).

(** Copying every value of every key with [c.Header]. *)
Definition copy_headers (h : Http.Header) (c : Context) : Context :=
  map_fold (fun key values c => fold_left (fun c v => SetHeader key v c) values c) c h.

End Gin.

(** ** The rate limiter

    [rate.Limiter] of golang.org/x/time/rate works on floating-point token
    counts and wall-clock time; it is kept abstract: a type of limiters, the
    constructor [rate.NewLimiter] and the method [Allow], which at a given
    time grants or refuses one token and leaves the limiter in a new state.
    A [*rate.Limiter] the table holds is referred to by its key, so that two
    requests that are handed the same entry spend from the same bucket. *)

Module RateLimiter.
Import Strings Net Http Gin.

(** [rate.Limit]: events per second, or [rate.Inf]. *)
Inductive Limit :=
| Inf
| PerSecond (q : Q).

Section WithLimiter.

Context {Limiter : Type}.
Variable NewLimiter : Limit -> Z -> Limiter.
Variable Allow : Z -> Limiter -> bool * Limiter.

Record rateLimiterEntry := {
  limiter : Limiter;
  lastAccess : Z
}.

Record IPRateLimiter := {
  ips : gmap string rateLimiterEntry;
  r : Limit;
  b : Z;
  whitelist : list IPNet;
  blacklist : list IPNet
}.

(** The limiter GetLimiter hands out: a new one that no table entry holds,
    or the one of the table entry under [key]. *)
Inductive LimiterRef :=
| Fresh (l : Limiter)
| Entry (key : string) (l : Limiter).

Definition limiter_of (ref : LimiterRef) : Limiter :=
  match ref with
  | Fresh l => l
  | Entry _ l => l
  end.

(** The loop of initGlobalLimiter over one of the two lists (the warning it
    prints for an entry that does not parse is left out). *)
Fixpoint parse_list (items : list string) : list IPNet :=
  match items with
  | [] => []
  | item :: rest =>
      let item := TrimSpace item in
      if negb (String.eqb item "") then
        let item := if negb (Contains item "/") then item +:+ "/32" else item in
        match ParseCIDR item with
        | Some (_, ipnet) => ipnet :: parse_list rest
        | None => parse_list rest
        end
      else parse_list rest
  end.

Definition initGlobalLimiter (cfg : AppConfig) : IPRateLimiter :=
  let whitelist := parse_list (WhiteList (Security cfg)) in
  let blacklist := parse_list (BlackList (Security cfg)) in
  let ratePerSecond :=
    PerSecond (inject_Z (RequestLimit (RateLimit cfg)) /
               (PeriodHours (RateLimit cfg) * 3600))%Q in
  let burstSize := RequestLimit (RateLimit cfg) in
  let burstSize := if (burstSize <? 1)%Z then 1%Z else burstSize in
  {| ips := ∅; r := ratePerSecond; b := burstSize;
     whitelist := whitelist; blacklist := blacklist |}.

Definition extractIPFromAddress (address : string) : string :=
  match SplitHostPort address with
  | Some (host, _) => host
  | None => address
  end.

(** [for i := 8; i < 16; i++ { ipv6[i] = 0 }] *)
Definition clear_low_bytes (ipv6 : IP) : IP :=
  foldl (fun ip i => <[i := 0%Z]> ip) ipv6 (seq 8 8).

(** The last branch is not reached: [net.ParseIP] returns sixteen bytes, for
    which [To16] is never nil. *)
Definition normalizeIPForRateLimit (ipStr : string) : string :=
  match ParseIP ipStr with
  | None => ipStr
  | Some ip =>
      match To4 ip with
      | Some _ => ipStr
      | None =>
          match To16 ip with
          | Some ipv6 => Net.String_ (clear_low_bytes ipv6) +:+ "/64"
          | None => Net.String_ [] +:+ "/64"
          end
      end
  end.

Definition isIPInCIDRList (ip : string) (cidrList : list IPNet) : bool :=
  let cleanIP := extractIPFromAddress ip in
  match ParseIP cleanIP with
  | None => false
  | Some parsedIP => existsb (fun cidr => Contains_ cidr parsedIP) cidrList
  end.

Definition with_ips (i : IPRateLimiter) (m : gmap string rateLimiterEntry) : IPRateLimiter :=
  {| ips := m; r := r i; b := b i; whitelist := whitelist i; blacklist := blacklist i |}.

(** [entry.lastAccess = now; return entry.limiter, true] *)
Definition touch (i : IPRateLimiter) (key : string) (entry : rateLimiterEntry) (now : Z)
  : IPRateLimiter * option LimiterRef :=
  (with_ips i (<[key := {| limiter := limiter entry; lastAccess := now |}]> (ips i)),
   Some (Entry key (limiter entry))).

(** GetLimiter at time [now].  [None] is the result [(nil, false)] for a
    denied address, [Some ref] the result [(limiter, true)]. *)
Definition GetLimiter (i : IPRateLimiter) (now : Z) (ip : string)
  : IPRateLimiter * option LimiterRef :=
  let cleanIP := extractIPFromAddress ip in
  if isIPInCIDRList cleanIP (blacklist i) then (i, None)
  else if isIPInCIDRList cleanIP (whitelist i)
  then (i, Some (Fresh (NewLimiter Inf (b i))))
  else
    let normalizedIP := normalizeIPForRateLimit cleanIP in
    let create :=
      (* under the write lock: look again, then insert *)
      match ips i !! normalizedIP with
      | Some entry => touch i normalizedIP entry now
      | None =>
          let entry := {| limiter := NewLimiter (r i) (b i); lastAccess := now |} in
          (with_ips i (<[normalizedIP := entry]> (ips i)),
           Some (Entry normalizedIP (limiter entry)))
      end in
    match ips i !! normalizedIP with
    | Some _ =>
        match ips i !! normalizedIP with
        | Some entry => touch i normalizedIP entry now
        | None => create
        end
    | None => create
    end.

(** [ipLimiter.Allow()] through the reference: the bucket of a table entry
    is updated in the table. *)
Definition allow_ref (i : IPRateLimiter) (now : Z) (ref : LimiterRef)
  : bool * IPRateLimiter :=
  match ref with
  | Fresh l => (fst (Allow now l), i)
  | Entry key l =>
      let '(ok, l') := Allow now l in
      (ok, with_ips i (alter (fun e => {| limiter := l'; lastAccess := lastAccess e |})
                             key (ips i)))
  end.

Definition exempt (path : string) : bool :=
  String.eqb path "/" || String.eqb path "/favicon.ico" ||
  String.eqb path "/images.html" || String.eqb path "/search.html" ||
  HasPrefix path "/public/".

(** The client address the middleware reads off the request; the header
    names are in the canonical form [c.GetHeader] looks them up by. *)
Definition client_address (req : Http.Request) : string :=
  let forwarded := Get (ReqHeader req) "X-Forwarded-For" in
  if negb (String.eqb forwarded "") then
    TrimSpace (nth 0 (Split forwarded ",") EmptyString)
  else
    let realIP := Get (ReqHeader req) "X-Real-Ip" in
    if negb (String.eqb realIP "") then realIP
    else
      let remoteIP := Get (ReqHeader req) "X-Original-Forwarded-For" in
      if negb (String.eqb remoteIP "") then
        TrimSpace (nth 0 (Split remoteIP ",") EmptyString)
      else ClientIP req.

(** RateLimitMiddleware at time [now]; [next] is the rest of the handler
    chain, which [c.Next()] runs.  The log lines are left out. *)
Definition RateLimitMiddleware (limiter : IPRateLimiter) (now : Z)
           (next : Context -> Context) (c : Context) : IPRateLimiter * Context :=
  let path := Path (Request c) in
  if exempt path then (limiter, next c)
  else
    let ip := client_address (Request c) in
    let cleanIP := extractIPFromAddress ip in
    match GetLimiter limiter now cleanIP with
    | (limiter, None) =>
        (limiter, Abort (JSON_error 403 "您已被限制访问" c))
    | (limiter, Some ipLimiter) =>
        let '(ok, limiter) := allow_ref limiter now ipLimiter in
        if negb ok
        then (limiter, Abort (JSON_error 429 "请求频率过快，暂时限制访问" c))
        else (limiter, next c)
    end.

End WithLimiter.

End RateLimiter.

(** ** The generic URL proxy *)

Module Proxy.
Import Strings Regexp UrlTable Http Gin.

Definition maxRedirects : Z := 20.

Section WithUpstream.

(** The snapshot [GetConfig()] returns while the request is served. *)
Variable cfg : AppConfig.

(** [http.NewRequest(method, u, body)]: the error text when it fails. *)
Variable NewRequestError : string -> string -> option string.

(** [GetGlobalHTTPClient().Do(req)]: the upstream answers the request,
    knowing the requests sent before it, with an error text or with a
    response. *)
Variable Do : list OutRequest -> OutRequest -> string + Response.

(** The shell-script rewriter [ProcessSmart(body, isGzip, host)], kept
    abstract: the processed body and its size, or [None] for an error. *)
Variable ProcessSmart : string -> bool -> string -> option (string * Z).

(** The [Location] handling both branches of proxyWithRedirect share:
    [inl] is the context to finish the response with, [inr] the location
    to follow. *)
Definition redirect_target (resp_header : Http.Header) (c : Context)
  : Context + string :=
  let location := Get resp_header "Location" in
  if negb (String.eqb location "") then
    match checkURL location with
    | Some _ => inl (SetHeader "Location" ("/" +:+ location) c)
    | None => inr location
    end
  else inl c.

(** proxyWithRedirect: the context and the log of the requests sent
    upstream so far go in, and come out. *)
Equations? proxyWithRedirect (c : Context) (sent : list OutRequest)
           (u : string) (redirectCount : Z)
  : Context * list OutRequest
  by wf (Z.to_nat (maxRedirects + 1 - redirectCount)) lt :=
proxyWithRedirect c sent u redirectCount
  with Z_gt_le_dec redirectCount maxRedirects := {
  | left _ =>
      (String_ StatusLoopDetected "重定向次数过多，可能存在循环重定向" c, sent)
  | right _ =>
      match NewRequestError (Method (Request c)) u with
      | Some err =>
          (String_ StatusInternalServerError ("server error " +:+ err) c, sent)
      | None =>
          let req := {| OutMethod := Method (Request c);
                        URL := u;
                        OutHeader := Del (ReqHeader (Request c)) "Host" |} in
          match Do sent req with
          | inl err =>
              (String_ StatusInternalServerError ("server error " +:+ err) c,
               sent ++ [req])
          | inr resp =>
              let sent := sent ++ [req] in
              let contentLength := Get (RespHeader resp) "Content-Length" in
              if negb (String.eqb contentLength "") &&
                 match Strconv.ParseInt64 contentLength with
                 | Some size => (size >? FileSize (Server cfg))%Z
                 | None => false
                 end
              then
                (String_ StatusRequestEntityTooLarge
                   ("文件过大，限制大小: " +:+
                    Strconv.FormatInt (FileSize (Server cfg) ÷ (1024 * 1024)) +:+
                    " MB") c, sent)
              else
                let header :=
                  Del (Del (Del (RespHeader resp) "Content-Security-Policy")
                           "Referrer-Policy") "Strict-Transport-Security" in
                let realHost := Get (ReqHeader (Request c)) "X-Forwarded-Host" in
                let realHost :=
                  if String.eqb realHost "" then Http.Host (Request c) else realHost in
                let realHost :=
                  if negb (HasPrefix realHost "http://") &&
                     negb (HasPrefix realHost "https://")
                  then "https://" +:+ realHost else realHost in
                if HasSuffix (ToLower u) ".sh" then
                  let isGzipCompressed :=
                    String.eqb (Get header "Content-Encoding") "gzip" in
                  let '(processedBody, processedSize) :=
                    match ProcessSmart (Body resp) isGzipCompressed realHost with
                    | Some (b, n) => (b, n)
                    | None => (Body resp, 0%Z)
                    end in
                  let header :=
                    if (processedSize >? 0)%Z
                    then Set_ (Del (Del header "Content-Length") "Content-Encoding")
                              "Transfer-Encoding" "chunked"
                    else header in
                  let c := copy_headers header c in
                  match redirect_target header c with
                  | inr location =>
                      proxyWithRedirect c sent location (redirectCount + 1)
                  | inl c =>
                      (write processedBody (set_status (StatusCode resp) c), sent)
                  end
                else
                  let c := copy_headers header c in
                  match redirect_target header c with
                  | inr location =>
                      proxyWithRedirect c sent location (redirectCount + 1)
                  | inl c =>
                      (write (Body resp) (set_status (StatusCode resp) c), sent)
                  end
          end
      end }.
Proof. all: unfold maxRedirects in *; lia. Qed.

Definition proxyRequest (c : Context) (sent : list OutRequest) (u : string)
  : Context * list OutRequest :=
  proxyWithRedirect c sent u 0.

(** The loop of handler that drops every leading ["/"]. *)
Fixpoint trim_slashes (rawPath : string) : string :=
  match rawPath with
  | String "/" rest => trim_slashes rest
  | _ => rawPath
  end.

(** The target URL handler reads off the request URI. *)
Definition target_url (uri : string) : string :=
  let rawPath := TrimPrefix uri "/" in
  let rawPath := trim_slashes rawPath in
  if negb (HasPrefix rawPath "https://") then
    let rawPath :=
      if HasPrefix rawPath "http:/" || HasPrefix rawPath "https:/" then
        ReplaceFirst (ReplaceFirst rawPath "http:/" "") "https:/" ""
      else if HasPrefix rawPath "http://" then TrimPrefix rawPath "http://"
      else rawPath in
    "https://" +:+ rawPath
  else rawPath.

Definition handler (c : Context) (sent : list OutRequest)
  : Context * list OutRequest :=
  let rawPath := target_url (RequestURI (Request c)) in
  match checkURL rawPath with
  | Some matches =>
      let '(allowed, reason) := AccessController.CheckGitHubAccess cfg matches in
      if negb allowed then (String_ StatusForbidden reason c, sent)
      else
        let rawPath :=
          if MatchString (exp 1) rawPath
          then ReplaceFirst rawPath "/blob/" "/raw/" else rawPath in
        proxyRequest c sent rawPath
  | None => (String_ StatusForbidden "无效输入" c, sent)
  end.

End WithUpstream.

End Proxy.

(** ** The generic URL proxy, as src/main.go has it

    The older variant of handler and proxyWithRedirect: the target must start
    with [http], and a shell script is rewritten by ProcessGitHubURLs after
    the redirect is dealt with. *)

Module ProxyMain.
Import Strings Regexp UrlTable Http Gin.

Definition maxRedirects : Z := 20.

Section WithUpstream.

Variable cfg : AppConfig.
Variable NewRequestError : string -> string -> option string.
Variable Do : list OutRequest -> OutRequest -> string + Response.

(** [ProcessGitHubURLs(body, isGzip, host, true)], kept abstract: an error
    text or the processed body. *)
Variable ProcessGitHubURLs : string -> bool -> string -> string + string.

Equations? proxyWithRedirect (c : Context) (sent : list OutRequest)
           (u : string) (redirectCount : Z)
  : Context * list OutRequest
  by wf (Z.to_nat (maxRedirects + 1 - redirectCount)) lt :=
proxyWithRedirect c sent u redirectCount
  with Z_gt_le_dec redirectCount maxRedirects := {
  | left _ =>
      (String_ StatusLoopDetected "重定向次数过多，可能存在循环重定向" c, sent)
  | right _ =>
      match NewRequestError (Method (Request c)) u with
      | Some err =>
          (String_ StatusInternalServerError ("server error " +:+ err) c, sent)
      | None =>
          let req := {| OutMethod := Method (Request c);
                        URL := u;
                        OutHeader := Del (ReqHeader (Request c)) "Host" |} in
          match Do sent req with
          | inl err =>
              (String_ StatusInternalServerError ("server error " +:+ err) c,
               sent ++ [req])
          | inr resp =>
              let sent := sent ++ [req] in
              let contentLength := Get (RespHeader resp) "Content-Length" in
              if negb (String.eqb contentLength "") &&
                 match Strconv.ParseInt64 contentLength with
                 | Some size => (size >? FileSize (Server cfg))%Z
                 | None => false
                 end
              then
                (String_ StatusRequestEntityTooLarge
                   ("文件过大，限制大小: " +:+
                    Strconv.FormatInt (FileSize (Server cfg) ÷ (1024 * 1024)) +:+
                    " MB") c, sent)
              else
                let header :=
                  Del (Del (Del (RespHeader resp) "Content-Security-Policy")
                           "Referrer-Policy") "Strict-Transport-Security" in
                let isShellFile := HasSuffix (ToLower u) ".sh" in
                let header :=
                  if isShellFile
                  then Set_ (Del header "Content-Length") "Transfer-Encoding" "chunked"
                  else header in
                let c := copy_headers header c in
                match Proxy.redirect_target header c with
                | inr location =>
                    proxyWithRedirect c sent location (redirectCount + 1)
                | inl c =>
                    let c := set_status (StatusCode resp) c in
                    if isShellFile then
                      let realHost := Get (ReqHeader (Request c)) "X-Forwarded-Host" in
                      let realHost :=
                        if String.eqb realHost "" then Http.Host (Request c) else realHost in
                      let realHost :=
                        if negb (HasPrefix realHost "http://") &&
                           negb (HasPrefix realHost "https://")
                        then "https://" +:+ realHost else realHost in
                      match ProcessGitHubURLs
                              (Body resp)
                              (String.eqb (Get header "Content-Encoding") "gzip")
                              realHost with
                      | inl err =>
                          (String_ StatusInternalServerError
                             ("处理shell文件时发生错误: " +:+ err) c, sent)
                      | inr processedBody => (write processedBody c, sent)
                      end
                    else (write (Body resp) c, sent)
                end
          end
      end }.
Proof. all: unfold maxRedirects in *; lia. Qed.

Definition proxy (c : Context) (sent : list OutRequest) (u : string)
  : Context * list OutRequest :=
  proxyWithRedirect c sent u 0.

Definition handler (c : Context) (sent : list OutRequest)
  : Context * list OutRequest :=
  let rawPath := TrimPrefix (RequestURI (Request c)) "/" in
  let rawPath := Proxy.trim_slashes rawPath in
  if negb (HasPrefix rawPath "http") then (String_ StatusForbidden "无效输入" c, sent)
  else
    match checkURL rawPath with
    | Some matches =>
        let '(allowed, reason) := AccessController.CheckGitHubAccess cfg matches in
        if negb allowed then (String_ StatusForbidden reason c, sent)
        else
          let rawPath :=
            if MatchString (exp 1) rawPath
            then ReplaceFirst rawPath "/blob/" "/raw/" else rawPath in
          proxy c sent rawPath
    | None => (String_ StatusForbidden "无效输入" c, sent)
    end.

End WithUpstream.

End ProxyMain.

(** ** Vocabulary of the statements: strings *)

Module StringsSpec.
Import Strings.

(** Occurrence of one byte, as a specification of [Contains s (String c "")]. *)
Fixpoint occurs (c : ascii) (s : string) : bool :=
  match s with
  | EmptyString => false
  | String d s' => Ascii.eqb c d || occurs c s'
  end.

(** Segments joined by ["/"]. *)
Fixpoint join (sep : ascii) (segs : list string) : string :=
  match segs with
  | [] => EmptyString
  | [x] => x
  | x :: rest => x +:+ String sep (join sep rest)
  end.

End StringsSpec.

(** ** Vocabulary of the statements: image names *)

Module ImageNames.
Import Strings StringsSpec AccessController.

(** The two stages of ParseDockerImage after the [docker://] prefix is
    removed: cutting the tag, and reading namespace and repository off the
    path segments. *)
Definition cut_tag (image : string) : string * string :=
  let idx := LastIndex image ":" in
  if negb (idx =? -1)%Z then
    let part := slice_from image (Z.to_nat (idx + 1)) in
    if negb (Contains part "/")
    then (part, slice_to image (Z.to_nat idx))
    else (EmptyString, image)
  else (EmptyString, image).

Definition read_segments (image : string) : string * string :=
  if Contains image "/" then
    let parts := Split image "/" in
    if (2 <=? length parts)%nat then
      if Contains (at_ parts 0) "." then
        if (3 <=? length parts)%nat
        then (at_ parts 1, at_ parts 2)
        else ("library", at_ parts 1)
      else (at_ parts 0, at_ parts 1)
    else (EmptyString, EmptyString)
  else ("library", image).

Definition no_slash (s : string) : Prop := occurs "/" s = false.
Definition no_colon (s : string) : Prop := occurs ":" s = false.

(** The rule the claim states for the path segments. *)
Definition segments_rule (seg0 seg1 : string) (more : list string) : string * string :=
  if Contains seg0 "." then
    match more with
    | [] => ("library", seg1)
    | seg2 :: _ => (seg1, seg2)
    end
  else (seg0, seg1).

(** The text [s] of an image string: the string itself, or what follows a
    leading [docker://]. *)
Definition image_text (image s : string) : Prop :=
  image = "docker://" +:+ s \/ (image = s /\ HasPrefix s "docker://" = false).

(** The last path segment, with its tag if it carries one. *)
Definition last_segment (last : string) (tag : option string) : string :=
  match tag with
  | Some t => last +:+ ":" +:+ t
  | None => last
  end.

(** A text read as path segments separated by '/', the last of which may
    end in [:tag]: no segment and no tag contains a '/', a tag contains no
    ':', and a last segment that carries no tag contains no ':'. *)
Definition reading (init : list string) (last : string) (tag : option string) : Prop :=
  Forall no_slash init /\ no_slash last /\
  match tag with
  | Some t => no_slash t /\ no_colon t
  | None => no_colon last
  end.

(** The tag the claim states: the text after the last ':' when there is
    one, ["latest"] when there is none or it is empty. *)
Definition tag_rule (tag : option string) : string :=
  match tag with
  | Some t => if String.eqb t "" then "latest" else t
  | None => "latest"
  end.

(** Namespace and repository the claim states for the path segments. *)
Definition path_rule (segs : list string) : string * string :=
  match segs with
  | [] => (EmptyString, EmptyString)
  | [name] => ("library", name)
  | seg0 :: seg1 :: more => segments_rule seg0 seg1 more
  end.

End ImageNames.

(** ** Vocabulary of the statements: patterns *)

Module RegexpSpec.
Import Strings Regexp UrlTable.

(** A continuation that returns the submatches it is given, up to updates. *)
Definition keeps_length (cont : string -> captures -> option captures) : Prop :=
  forall s cs res, cont s cs = Some res -> length res = length cs.

(** A pattern [^(?:https?://)?host...] only matches at the start of the
    text, and the text then starts with the host, with or without a scheme. *)
Definition anchored (host : string) (rest : list regex) : regex :=
  Seq (BeginText :: scheme :: Lit host :: rest).

Definition gist_prefixed (u : string) : Prop :=
  exists t, u = "gist.github" +:+ t \/ u = "http://" +:+ "gist.github" +:+ t \/
            u = "https://" +:+ "gist.github" +:+ t.

End RegexpSpec.

(** ** Vocabulary of the statements: addresses *)

Module NetSpec.
Import Strings StringsSpec Net.

Definition is_byte (x : Z) : Prop := (0 <= x < 256)%Z.

(** A 16-byte address. *)
Definition wf16 (ip : IP) : Prop := length ip = 16%nat /\ Forall is_byte ip.

Fixpoint unhex (s : string) (acc : Z) : Z :=
  match s with
  | EmptyString => acc
  | String c s' =>
      match hex_val c with
      | Some d => unhex s' (acc * 16 + d)%Z
      | None => acc
      end
  end.

(** What the proofs need of the text of a field: it reads back as the
    field, it has no colon, and it is not empty. *)
Definition hex_ok (x : Z) : bool :=
  (unhex (appendHex x) 0 =? x)%Z &&
  negb (occurs ":" (appendHex x)) &&
  negb (String.eqb (appendHex x) "").

Definition bytes256 : list Z := map Z.of_nat (seq 0 256).

(** A 16-bit field made of two bytes. *)
Definition is_field (x : Z) : Prop :=
  exists hi lo, is_byte hi /\ is_byte lo /\ x = (hi * 256 + lo)%Z.

(** The text of an address whose fields after [l] are all zero, for a list
    [l] of at most seven fields that does not end in a zero field. *)
Fixpoint canon (l : list Z) : string :=
  match l with
  | [] => "::"
  | x :: rest =>
      appendHex x +:+ match rest with [] => "::" | _ => ":" +:+ canon rest end
  end.

(** [l] without the zero fields at its end. *)
Fixpoint strip (l : list Z) : list Z :=
  match l with
  | [] => []
  | x :: rest =>
      match strip rest with
      | [] => if (x =? 0)%Z then [] else [x]
      | rest' => x :: rest'
      end
  end.

(** The fields of the upper 64 bits. *)
Definition upper_fields (ip : IP) : list Z := take 4 (v6u16 ip).

End NetSpec.

(** ** Vocabulary of the statements: buckets *)

Module BucketSpec.
Import RateLimiter.

Section WithLimiter.
Context {Limiter : Type}.
Variable NewLimiter : Limit -> Z -> Limiter.

(** The limiter a request keyed by [key] spends from: the one of the table
    entry under [key], or a new one of the configured rate and burst when
    the table has no such entry. *)
Definition bucket (lim : IPRateLimiter) (key : string) : Limiter :=
  match ips lim !! key with
  | Some entry => limiter entry
  | None => NewLimiter (r lim) (b lim)
  end.

End WithLimiter.

End BucketSpec.

(** ** Proof automation for the proxy *)

Module ProxyTactics.
Import Proxy.

(** Case analysis on the tests of an unfolded proxyWithRedirect. *)
Ltac split_tests :=
  repeat match goal with
         | |- context [match ?x with _ => _ end] =>
             lazymatch x with
             | context [proxyWithRedirect] => fail
             | context [ProxyMain.proxyWithRedirect] => fail
             | _ => destruct x eqn:?
             end
         end.

End ProxyTactics.

(** ** Concrete configurations *)

Module ConfigScenarios.
Import Config.

Definition only_nginx : AppConfig :=
  {| Server := Server DefaultConfig; RateLimit := RateLimit DefaultConfig;
     Security := Security DefaultConfig;
     Proxy := {| WhiteList := ["library/nginx"]; BlackList := ["library/redis"] |};
     Download := Download DefaultConfig; Registries := Registries DefaultConfig;
     TokenCache := TokenCache DefaultConfig |}.

Definition no_env (name : string) : string := EmptyString.
Definition no_float (val : string) : option Q := None.

(** A store whose configuration was loaded from a file that sets the port. *)
Definition port_8080 (data : string) (cfg : AppConfig) : string + AppConfig :=
  inr (with_server (fun sv => {| Host := Host sv; Port := 8080; FileSize := FileSize sv |}) cfg).

Definition loaded : State :=
  snd (fst (LoadConfig no_env no_float (Some "[server]") port_8080 initial)).

(** A configuration that denies one IPv6 address and one IPv4 address. *)
Definition deny_two : AppConfig :=
  {| Server := Server DefaultConfig; RateLimit := RateLimit DefaultConfig;
     Security := {| WhiteList := []; BlackList := ["2001:db8::1"; "192.0.2.7"] |};
     Proxy := Proxy DefaultConfig;
     Download := Download DefaultConfig; Registries := Registries DefaultConfig;
     TokenCache := TokenCache DefaultConfig |}.

(** A configuration whose allow-list is one repo-only wildcard. *)
Definition any_widget : AppConfig :=
  {| Server := Server DefaultConfig; RateLimit := RateLimit DefaultConfig;
     Security := Security DefaultConfig;
     Proxy := {| WhiteList := ["*/widget"]; BlackList := [] |};
     Download := Download DefaultConfig; Registries := Registries DefaultConfig;
     TokenCache := TokenCache DefaultConfig |}.

End ConfigScenarios.

(** ** Concrete requests, upstreams and limiters *)

Module Scenarios.
Import Strings Net Http Gin RateLimiter.

(** An upstream that answers every request with a redirect to a location
    outside the pattern table. *)
Definition redirect_forever (sent : list OutRequest) (req : OutRequest)
  : string + Response :=
  inr {| StatusCode := 302;
         RespHeader := {[ "Location" := ["https://example.com/next"] ]};
         Body := EmptyString |}.

Definition release_request : Context :=
  {| Request := {| Method := "GET";
                   RequestURI := "/https://github.com/u/r/releases/download/v1/x.tar.gz";
                   Path := "/https://github.com/u/r/releases/download/v1/x.tar.gz";
                   ReqHeader := ∅;
                   Host := "proxy.example.com";
                   ClientIP := "192.0.2.1" |};
     Status := 200; Header := ∅; Written := EmptyString; Aborted := false |}.

Definition gist_request : Context :=
  {| Request := {| Method := "GET";
                   RequestURI := "/https://gist.githubusercontent.com/alice/0a1b/raw/notes.txt";
                   Path := "/https://gist.githubusercontent.com/alice/0a1b/raw/notes.txt";
                   ReqHeader := ∅;
                   Host := "proxy.example.com";
                   ClientIP := "192.0.2.1" |};
     Status := 200; Header := ∅; Written := EmptyString; Aborted := false |}.

(** A bucket of whole tokens that are never refilled. *)
Definition counter_new (limit : Limit) (burst : Z) : Z := burst.
Definition counter_allow (now : Z) (tokens : Z) : bool * Z :=
  if (0 <? tokens)%Z then (true, tokens - 1)%Z else (false, tokens).

Definition denied_request : Context :=
  {| Request := {| Method := "GET";
                   RequestURI := "/v2/library/nginx/manifests/latest";
                   Path := "/v2/library/nginx/manifests/latest";
                   ReqHeader := {[ "X-Forwarded-For" := ["192.0.2.7, 10.0.0.1"] ]};
                   Host := "proxy.example.com";
                   ClientIP := "10.0.0.1" |};
     Status := 200; Header := ∅; Written := EmptyString; Aborted := false |}.

(** A limiter with an empty table and no lists. *)
Definition plain : IPRateLimiter (Limiter := Z) :=
  {| ips := ∅; r := PerSecond 1; b := 20; whitelist := []; blacklist := [] |}.

(** A limiter whose allow list holds one IPv6 address. *)
Definition allow_one : IPRateLimiter (Limiter := Z) :=
  {| ips := ∅; r := PerSecond 1; b := 20;
     whitelist := parse_list ["2001:db8::1/128"]; blacklist := [] |}.

End Scenarios.

(** ** Vocabulary of the statements: the configuration store *)

Module ConfigSpec.
Import Config.

(** The cache is empty or holds the published snapshot. *)
Definition coherent (st : State) : Prop :=
  cachedConfig st = None \/ cachedConfig st = Some (published st).

Section WithEnvironment.
Variable Getenv : string -> string.
Variable ParseFloat : string -> option Q.

(** The states the store can be in: the initial one, and the ones the four
    operations lead to. *)
Inductive reachable : State -> Prop :=
| reach_initial : reachable initial
| reach_GetConfig now st :
    reachable st -> reachable (snd (GetConfig now st))
| reach_LoadConfig file tomlUnmarshal st :
    reachable st ->
    reachable (snd (fst (LoadConfig Getenv ParseFloat file tomlUnmarshal st)))
| reach_hotReload viperUnmarshal st :
    reachable st ->
    reachable (fst (hotReloadWithViper Getenv ParseFloat viperUnmarshal st)).

End WithEnvironment.

End ConfigSpec.

(* ================================================================== *)
(** * Properties *)

(** ** Facts about the string functions *)

Module StringsFacts.
Import Strings StringsSpec.

Lemma append_cons c (s t : string) : String c s +:+ t = String c (s +:+ t).
Proof. reflexivity. Qed.

Lemma append_nil_l (t : string) : "" +:+ t = t.
Proof. reflexivity. Qed.

Lemma append_nil_r (s : string) : s +:+ "" = s.
Proof. induction s as [|c s IH]; simpl; [reflexivity | now rewrite IH]. Qed.

Lemma append_assoc (s t u : string) : (s +:+ t) +:+ u = s +:+ (t +:+ u).
Proof. induction s as [|c s IH]; simpl; [reflexivity | now rewrite IH]. Qed.

Lemma length_append (s t : string) :
  String.length (s +:+ t) = (String.length s + String.length t)%nat.
Proof. induction s as [|c s IH]; simpl; [reflexivity | now rewrite IH]. Qed.

Lemma slice_from_app (s t : string) : slice_from (s +:+ t) (String.length s) = t.
Proof. induction s as [|c s IH]; simpl; [now destruct t | exact IH]. Qed.

Lemma slice_to_app (s t : string) : slice_to (s +:+ t) (String.length s) = s.
Proof. induction s as [|c s IH]; simpl; [now destruct t | now rewrite IH]. Qed.

Lemma slice_from_0 (s : string) : slice_from s 0 = s.
Proof. now destruct s. Qed.

Lemma slice_to_all (s : string) : slice_to s (String.length s) = s.
Proof. induction s as [|c s IH]; simpl; [reflexivity | now rewrite IH]. Qed.

Lemma HasPrefix_app (p r : string) : HasPrefix (p +:+ r) p = true.
Proof.
  induction p as [|c p IH]; simpl; [reflexivity|].
  now rewrite Ascii.eqb_refl, IH.
Qed.

Lemma HasPrefix_inv (s p : string) :
  HasPrefix s p = true -> s = p +:+ slice_from s (String.length p).
Proof.
  revert s. induction p as [|c p IH]; intros s H; simpl in *.
  - now rewrite slice_from_0.
  - destruct s as [|d s]; [discriminate|].
    apply andb_true_iff in H as [Hc Hp].
    apply Ascii.eqb_eq in Hc. subst d. simpl. f_equal. now apply IH.
Qed.

Lemma HasPrefix_nil (s : string) : HasPrefix s "" = true.
Proof. now destruct s. Qed.

Lemma Index_lower (s sub : string) : (-1 <= Index s sub)%Z.
Proof.
  induction s as [|d s IH]; simpl.
  - destruct (HasPrefix "" sub); lia.
  - destruct (HasPrefix (String d s) sub); [lia|].
    destruct (Z.eqb_spec (Index s sub) (-1)); lia.
Qed.

Lemma Contains_byte (c : ascii) (s : string) :
  Contains s (String c "") = occurs c s.
Proof.
  unfold Contains. induction s as [|d s IH]; simpl; [reflexivity|].
  rewrite andb_true_r.
  destruct (Ascii.eqb c d); simpl; [reflexivity|].
  pose proof (Index_lower s (String c "")) as Hl.
  destruct (Z.eqb_spec (Index s (String c "")) (-1)) as [E|E].
  - rewrite <- IH, E. reflexivity.
  - rewrite <- IH. apply eq_trans with true; [|symmetry]; apply Z.leb_le; lia.
Qed.

Lemma occurs_app c (s t : string) : occurs c (s +:+ t) = occurs c s || occurs c t.
Proof.
  induction s as [|d s IH]; simpl; [reflexivity|].
  now rewrite IH, orb_assoc.
Qed.

Lemma LastIndex_lower (s sub : string) : (-1 <= LastIndex s sub)%Z.
Proof.
  induction s as [|d s IH]; simpl.
  - destruct sub; simpl; lia.
  - destruct (Z.eqb_spec (LastIndex s sub) (-1)); [|lia].
    destruct (HasPrefix (String d s) sub); lia.
Qed.

Lemma LastIndex_none (c : ascii) (s : string) :
  occurs c s = false -> LastIndex s (String c "") = (-1)%Z.
Proof.
  induction s as [|d s IH]; simpl; [reflexivity|].
  intros H. apply orb_false_iff in H as [Hc Hs].
  rewrite (IH Hs), Hc. reflexivity.
Qed.

Lemma LastIndex_some (c : ascii) (s : string) :
  occurs c s = true -> (0 <= LastIndex s (String c ""))%Z.
Proof.
  induction s as [|d s IH]; simpl; [discriminate|].
  intros H. pose proof (LastIndex_lower s (String c "")) as Hl.
  destruct (Z.eqb_spec (LastIndex s (String c "")) (-1)) as [E|E]; [|lia].
  destruct (occurs c s) eqn:Ho.
  - specialize (IH eq_refl). lia.
  - rewrite orb_false_r in H. rewrite H. simpl. lia.
Qed.

(** The last occurrence of [c] in [a ++ c ++ b] is at [|a|] when [b] has none. *)
Lemma LastIndex_app (c : ascii) (a b : string) :
  occurs c b = false ->
  LastIndex (a +:+ String c b) (String c "") = Z.of_nat (String.length a).
Proof.
  intros Hb. induction a as [|d a IH].
  - simpl. rewrite (LastIndex_none c b Hb). simpl.
    now rewrite Ascii.eqb_refl.
  - rewrite append_cons. simpl LastIndex. rewrite IH.
    destruct (Z.eqb_spec (Z.of_nat (String.length a)) (-1)); [lia|].
    simpl String.length. lia.
Qed.

Lemma Split_no_sep (sep : ascii) (s : string) :
  occurs sep s = false -> Split s sep = [s].
Proof.
  induction s as [|d s IH]; simpl; [reflexivity|].
  intros H. apply orb_false_iff in H as [Hc Hs].
  rewrite Ascii.eqb_sym, Hc, (IH Hs). reflexivity.
Qed.

Lemma Split_app (sep : ascii) (x rest : string) :
  occurs sep x = false ->
  Split (x +:+ String sep rest) sep = x :: Split rest sep.
Proof.
  induction x as [|d x IH]; simpl.
  - intros _. now rewrite Ascii.eqb_refl.
  - intros H. apply orb_false_iff in H as [Hc Hs].
    rewrite Ascii.eqb_sym, Hc, (IH Hs). reflexivity.
Qed.

Lemma Split_join (sep : ascii) (segs : list string) :
  segs <> [] ->
  Forall (fun x => occurs sep x = false) segs ->
  Split (join sep segs) sep = segs.
Proof.
  induction segs as [|x rest IH]; [congruence|].
  intros _ Hall. inversion Hall as [|? ? Hx Hrest]; subst.
  destruct rest as [|y rest'].
  - simpl. now apply Split_no_sep.
  - change (join sep (x :: y :: rest')) with (x +:+ String sep (join sep (y :: rest'))).
    rewrite Split_app by assumption. f_equal. apply IH; [congruence | assumption].
Qed.

Lemma occurs_join_sep (sep : ascii) (x y : string) (rest : list string) :
  occurs sep (join sep (x :: y :: rest)) = true.
Proof.
  change (join sep (x :: y :: rest)) with (x +:+ String sep (join sep (y :: rest))).
  rewrite occurs_app. simpl. rewrite Ascii.eqb_refl. apply orb_true_r.
Qed.

Lemma occurs_join (c sep : ascii) (segs : list string) :
  Ascii.eqb c sep = false ->
  Forall (fun x => occurs c x = false) segs ->
  occurs c (join sep segs) = false.
Proof.
  intros Hc. induction segs as [|x rest IH]; [reflexivity|].
  intros Hall. inversion Hall as [|? ? Hx Hrest]; subst.
  destruct rest as [|y rest']; [exact Hx|].
  change (join sep (x :: y :: rest')) with (x +:+ String sep (join sep (y :: rest'))).
  rewrite occurs_app. simpl. rewrite Hx, Hc. simpl. now apply IH.
Qed.

End StringsFacts.

(** ** ParseDockerImage *)

Module ParseDockerImageFacts.
Import Strings StringsSpec StringsFacts AccessController ImageNames.

Lemma ParseDockerImage_unfold (image : string) :
  ParseDockerImage image =
  let tn := cut_tag (TrimPrefix image "docker://") in
  let nr := read_segments (snd tn) in
  {| Namespace := fst nr; Repository := snd nr;
     Tag := if String.eqb (fst tn) "" then "latest" else fst tn;
     FullName := fst nr +:+ "/" +:+ snd nr |}.
Proof.
  unfold ParseDockerImage, cut_tag, read_segments.
  destruct (negb (LastIndex (TrimPrefix image "docker://") ":" =? -1)%Z);
    [destruct (negb (Contains _ "/"))|]; cbn [fst snd];
    repeat match goal with |- context [if ?b then _ else _] => destruct b end;
    reflexivity.
Qed.

Lemma cut_tag_none (image : string) :
  occurs ":" image = false -> cut_tag image = (EmptyString, image).
Proof.
  intros H. unfold cut_tag. now rewrite (LastIndex_none _ _ H).
Qed.

Lemma cut_tag_app (a b : string) :
  occurs ":" b = false ->
  cut_tag (a +:+ String ":" b) =
  if occurs "/" b then (EmptyString, a +:+ String ":" b) else (b, a).
Proof.
  intros Hb. unfold cut_tag. rewrite (LastIndex_app _ a b Hb).
  destruct (Z.eqb_spec (Z.of_nat (String.length a)) (-1)); [lia|].
  cbn [negb].
  assert (E1 : slice_from (a +:+ String ":" b)
                 (Z.to_nat (Z.of_nat (String.length a) + 1)) = b).
  { replace (Z.to_nat (Z.of_nat (String.length a) + 1))
      with (String.length (a +:+ ":")) by (rewrite length_append; simpl; lia).
    rewrite <- (slice_from_app (a +:+ ":") b) at 2.
    now rewrite append_assoc. }
  assert (E2 : slice_to (a +:+ String ":" b)
                 (Z.to_nat (Z.of_nat (String.length a))) = a).
  { rewrite Nat2Z.id. apply slice_to_app. }
  rewrite E1, E2, Contains_byte.
  now destruct (occurs "/" b).
Qed.

(** A string that starts with [docker://] and is cut at its last colon. *)
Lemma docker_prefix_cases (a b : string) :
  HasPrefix (a +:+ String ":" b) "docker://" = true ->
  (a = "docker" /\ exists b', b = "//" +:+ b') \/
  (exists a', a = "docker://" +:+ a').
Proof.
  intros H. apply HasPrefix_inv in H. simpl String.length in H.
  set (r := slice_from _ 9) in H. clearbody r.
  do 9 (destruct a as [|? a];
        [simpl in H;
         first [ discriminate H
               | inversion H; subst; left; split; [reflexivity | eexists; reflexivity] ] |]);
  simpl in H.
  right. inversion H; subst. eexists. reflexivity.
Qed.

Lemma read_segments_flat (name : string) :
  occurs "/" name = false -> read_segments name = ("library", name).
Proof. intros H. unfold read_segments. now rewrite Contains_byte, H. Qed.

Lemma read_segments_join (seg0 seg1 : string) (more : list string) :
  Forall (fun x => occurs "/" x = false) (seg0 :: seg1 :: more) ->
  read_segments (join "/" (seg0 :: seg1 :: more)) = segments_rule seg0 seg1 more.
Proof.
  intros Hall. unfold read_segments, segments_rule.
  rewrite Contains_byte, occurs_join_sep, Split_join by (assumption || congruence).
  cbn [length Nat.leb at_ nth].
  destruct (Contains seg0 "."); [|reflexivity].
  destruct more; reflexivity.
Qed.

Lemma docker_prefix_slash (s : string) :
  HasPrefix s "docker://" = true -> occurs "/" s = true /\ occurs ":" s = true.
Proof.
  intros H. apply HasPrefix_inv in H. rewrite H.
  split; rewrite occurs_app; reflexivity.
Qed.

Lemma TrimPrefix_id (s p : string) : HasPrefix s p = false -> TrimPrefix s p = s.
Proof. intros H. unfold TrimPrefix. now rewrite H. Qed.

Lemma TrimPrefix_app (p r : string) : TrimPrefix (p +:+ r) p = r.
Proof. unfold TrimPrefix. now rewrite HasPrefix_app, slice_from_app. Qed.

Lemma eqb_empty (s : string) : String.eqb s "" = match s with "" => true | _ => false end.
Proof. now destruct s. Qed.

Lemma tag_of_cut (a b : string) :
  no_colon b ->
  fst (cut_tag (TrimPrefix (a +:+ String ":" b) "docker://")) =
  if occurs "/" b then EmptyString else b.
Proof.
  intros Hb.
  destruct (HasPrefix (a +:+ String ":" b) "docker://") eqn:Hp.
  - destruct (docker_prefix_cases a b Hp) as [[-> [b' ->]] | [a' ->]].
    + change ("docker" +:+ String ":" ("//" +:+ b')) with ("docker://" +:+ b').
      rewrite TrimPrefix_app.
      assert (Hb' : occurs ":" b' = false) by exact Hb.
      now rewrite (cut_tag_none b' Hb').
    + rewrite append_assoc, TrimPrefix_app, (cut_tag_app a' b Hb).
      now destruct (occurs "/" b).
  - rewrite (TrimPrefix_id _ _ Hp), (cut_tag_app a b Hb).
    now destruct (occurs "/" b).
Qed.

Lemma Split_not_nil (sep : ascii) (s : string) : Split s sep <> [].
Proof.
  destruct s as [|c s]; simpl; [discriminate|].
  destruct (Ascii.eqb c sep); [discriminate|]. destruct (Split s sep); discriminate.
Qed.

Lemma Split_parts (sep : ascii) (s : string) :
  Forall (fun part => occurs sep part = false) (Split s sep).
Proof.
  induction s as [|c s IH]; simpl; [repeat constructor|].
  destruct (Ascii.eqb_spec c sep) as [->|Hne].
  - constructor; [reflexivity | exact IH].
  - destruct (Split s sep) as [|p ps].
    + repeat constructor. simpl. rewrite orb_false_r.
      apply Ascii.eqb_neq. congruence.
    + inversion IH as [|? ? Hp Hps]; subst. constructor; [|exact Hps].
      simpl. rewrite Hp, orb_false_r. apply Ascii.eqb_neq. congruence.
Qed.

(** Joining the parts gives the text back. *)
Lemma join_Split (sep : ascii) (s : string) : join sep (Split s sep) = s.
Proof.
  induction s as [|c s IH]; simpl; [reflexivity|].
  pose proof (Split_not_nil sep s) as Hne.
  destruct (Ascii.eqb_spec c sep) as [->|Hc].
  - destruct (Split s sep) as [|p ps]; [congruence|].
    change (join sep ("" :: p :: ps)) with (String sep (join sep (p :: ps))).
    now rewrite IH.
  - destruct (Split s sep) as [|p ps]; [congruence|].
    destruct ps as [|q ps].
    + simpl in *. now rewrite IH.
    + change (join sep (String c p :: q :: ps))
        with (String c (p +:+ String sep (join sep (q :: ps)))).
      change (join sep (p :: q :: ps)) with (p +:+ String sep (join sep (q :: ps))) in IH.
      now rewrite IH.
Qed.

Lemma join_snoc_app (sep : ascii) (init : list string) (x y : string) :
  join sep (init ++ [x +:+ y]) = join sep (init ++ [x]) +:+ y.
Proof.
  induction init as [|a init IH]; [reflexivity|].
  destruct init as [|b init].
  - simpl. now rewrite append_assoc.
  - change (join sep ((a :: b :: init) ++ [x +:+ y]))
      with (a +:+ String sep (join sep ((b :: init) ++ [x +:+ y]))).
    change (join sep ((a :: b :: init) ++ [x]))
      with (a +:+ String sep (join sep ((b :: init) ++ [x]))).
    rewrite IH, append_assoc. reflexivity.
Qed.

(** A text with the byte [c] in it is cut at the last one. *)
Lemma last_byte_split (c : ascii) (s : string) :
  occurs c s = true -> exists a b, s = a +:+ String c b /\ occurs c b = false.
Proof.
  induction s as [|d s IH]; simpl; [discriminate|].
  destruct (occurs c s) eqn:Hs.
  - intros _. destruct (IH eq_refl) as (a & b & -> & Hb).
    exists (String d a), b. now split.
  - rewrite orb_false_r. intros Hd. apply Ascii.eqb_eq in Hd as ->.
    exists EmptyString, s. now split.
Qed.

(** Where the byte [c] of [a +:+ String c b] lies in a text put together
    from [u] and [v]. *)
Lemma app_byte_split (c : ascii) (u v : string) :
  forall a b,
    u +:+ v = a +:+ String c b ->
    (exists w, u = a +:+ String c w /\ b = w +:+ v) \/
    (exists a', a = u +:+ a' /\ v = a' +:+ String c b).
Proof.
  induction u as [|d u IH]; intros a b E.
  - right. exists a. now split.
  - destruct a as [|e a]; simpl in E.
    + injection E as -> <-. left. exists u. now split.
    + injection E as -> E. destruct (IH _ _ E) as [(w & -> & ->) | (a' & -> & ->)].
      * left. exists w. now split.
      * right. exists a'. now split.
Qed.

(** A colon in a segment before the last one is followed by a '/'. *)
Lemma colon_before_last_segment (init : list string) (last : string) :
  no_colon last ->
  forall a b,
    join "/" (init ++ [last]) = a +:+ String ":" b -> occurs "/" b = true.
Proof.
  intros Hlast. induction init as [|x init IH]; intros a b E.
  - simpl in E. unfold no_colon in Hlast. rewrite E, occurs_app in Hlast.
    simpl in Hlast. rewrite orb_true_r in Hlast. discriminate Hlast.
  - assert (Ej : join "/" ((x :: init) ++ [last]) =
                 x +:+ String "/" (join "/" (init ++ [last]))).
    { destruct init; reflexivity. }
    rewrite Ej in E.
    destruct (app_byte_split _ _ _ _ _ E) as [(w & _ & ->) | (a' & -> & E')].
    + rewrite occurs_app. simpl. apply orb_true_r.
    + destruct a' as [|d a']; simpl in E'; [discriminate E'|].
      injection E' as _ E'. exact (IH _ _ E').
Qed.

(** Without a tag on the last segment nothing is cut off. *)
Lemma cut_tag_untagged (init : list string) (last : string) :
  no_colon last ->
  cut_tag (join "/" (init ++ [last])) = (EmptyString, join "/" (init ++ [last])).
Proof.
  intros Hlast. destruct (occurs ":" (join "/" (init ++ [last]))) eqn:Hc.
  - destruct (last_byte_split _ _ Hc) as (a & b & E & Hb).
    rewrite E, (cut_tag_app a b Hb), <- E.
    now rewrite (colon_before_last_segment init last Hlast a b E).
  - exact (cut_tag_none _ Hc).
Qed.

Lemma read_segments_path (init : list string) (last : string) :
  Forall no_slash init -> no_slash last ->
  read_segments (join "/" (init ++ [last])) = path_rule (init ++ [last]).
Proof.
  intros Hinit Hlast. destruct init as [|seg0 init].
  - exact (read_segments_flat last Hlast).
  - assert (Hall : Forall (fun x => occurs "/" x = false) ((seg0 :: init) ++ [last])).
    { apply Forall_app. split; [exact Hinit | now constructor]. }
    destruct init as [|seg1 init]; exact (read_segments_join _ _ _ Hall).
Qed.

Lemma image_text_TrimPrefix (image s : string) :
  image_text image s -> TrimPrefix image "docker://" = s.
Proof.
  intros [-> | [-> H]]; [apply TrimPrefix_app | now apply TrimPrefix_id].
Qed.

End ParseDockerImageFacts.

Module ParseDockerImageSpec.
Import Strings StringsSpec StringsFacts AccessController ImageNames ParseDockerImageFacts.

(** C6, as amended.  Every image string has a text, the string itself or
    what follows a leading "docker://", and every text reads as path
    segments separated by '/', the last of which may end in ":tag"
    ([reading]).  For every such reading ParseDockerImage returns the tag of
    the reading, or "latest" when there is none or it is empty
    ([tag_rule]); a colon in an earlier segment, as in host:port/ns/repo, is
    no tag.  Namespace and repository are read off the segments without the
    tag ([path_rule]): "library" and the name for a single segment; for more
    segments the first one is left out exactly when it contains a '.', and
    then the namespace is "library" if only one segment follows.  FullName
    is namespace + "/" + repository.  The first seven parts state the same
    for the shapes the claim names. *)
Theorem ParseDockerImage_spec :
  (forall image,
      FullName (ParseDockerImage image) =
      Namespace (ParseDockerImage image) +:+ "/" +:+ Repository (ParseDockerImage image))
  /\ (forall image,
        Contains image "/" = false -> Contains image ":" = false ->
        Namespace (ParseDockerImage image) = "library" /\
        Repository (ParseDockerImage image) = image)
  /\ (forall name tag,
        Contains name "/" = false -> Contains tag "/" = false ->
        Contains tag ":" = false ->
        Namespace (ParseDockerImage (name +:+ ":" +:+ tag)) = "library" /\
        Repository (ParseDockerImage (name +:+ ":" +:+ tag)) = name)
  /\ (forall image,
        Contains image ":" = false -> Tag (ParseDockerImage image) = "latest")
  /\ (forall a b,
        Contains b ":" = false ->
        Tag (ParseDockerImage (a +:+ ":" +:+ b)) =
        if Contains b "/" || String.eqb b "" then "latest" else b)
  /\ (forall seg0 seg1 more,
        Forall (fun x => no_slash x /\ no_colon x) (seg0 :: seg1 :: more) ->
        let info := ParseDockerImage (join "/" (seg0 :: seg1 :: more)) in
        (Namespace info, Repository info) = segments_rule seg0 seg1 more)
  /\ (forall seg0 seg1 more tag,
        Forall no_slash (seg0 :: seg1 :: more) ->
        no_slash tag -> no_colon tag ->
        HasPrefix (join "/" (seg0 :: seg1 :: more)) "docker://" = false ->
        let info := ParseDockerImage (join "/" (seg0 :: seg1 :: more) +:+ ":" +:+ tag) in
        (Namespace info, Repository info) = segments_rule seg0 seg1 more)
  /\ (forall image,
        exists s init last tag,
          image_text image s /\ reading init last tag /\
          s = join "/" (init ++ [last_segment last tag]))
  /\ (forall image s init last tag,
        image_text image s -> reading init last tag ->
        s = join "/" (init ++ [last_segment last tag]) ->
        let info := ParseDockerImage image in
        Tag info = tag_rule tag /\
        (Namespace info, Repository info) = path_rule (init ++ [last]) /\
        FullName info = Namespace info +:+ "/" +:+ Repository info).
Proof.
  repeat apply conj.
  - intros image. rewrite ParseDockerImage_unfold. reflexivity.
  - intros image Hs Hc. rewrite Contains_byte in Hs, Hc.
    rewrite ParseDockerImage_unfold. cbn [Namespace Repository].
    assert (Hp : HasPrefix image "docker://" = false).
    { destruct (HasPrefix image "docker://") eqn:E; [|reflexivity].
      apply docker_prefix_slash in E as [E _]. congruence. }
    rewrite (TrimPrefix_id _ _ Hp), (cut_tag_none _ Hc). cbn [snd].
    now rewrite (read_segments_flat _ Hs).
  - intros name tag Hn Ht Hc. rewrite Contains_byte in Hn, Ht, Hc.
    rewrite ParseDockerImage_unfold. cbn [Namespace Repository].
    assert (Hp : HasPrefix (name +:+ ":" +:+ tag) "docker://" = false).
    { destruct (HasPrefix _ "docker://") eqn:E; [|reflexivity].
      apply docker_prefix_slash in E as [E _].
      rewrite !occurs_app, Hn, Ht in E. discriminate E. }
    rewrite (TrimPrefix_id _ _ Hp).
    change (name +:+ ":" +:+ tag) with (name +:+ String ":" tag).
    rewrite (cut_tag_app name tag Hc), Ht. cbn [snd].
    now rewrite (read_segments_flat _ Hn).
  - intros image Hc. rewrite Contains_byte in Hc.
    rewrite ParseDockerImage_unfold. cbn [Tag].
    assert (Hp : HasPrefix image "docker://" = false).
    { destruct (HasPrefix image "docker://") eqn:E; [|reflexivity].
      apply docker_prefix_slash in E as [_ E]. congruence. }
    now rewrite (TrimPrefix_id _ _ Hp), (cut_tag_none _ Hc).
  - intros a b Hb. rewrite Contains_byte in Hb.
    rewrite ParseDockerImage_unfold. cbn [Tag].
    change (a +:+ ":" +:+ b) with (a +:+ String ":" b).
    rewrite (tag_of_cut a b Hb), Contains_byte.
    destruct (occurs "/" b); [reflexivity|].
    cbn [orb]. now destruct (String.eqb b "").
  - intros seg0 seg1 more Hall info. subst info.
    rewrite ParseDockerImage_unfold. cbn [Namespace Repository].
    assert (Hc : occurs ":" (join "/" (seg0 :: seg1 :: more)) = false).
    { apply occurs_join; [reflexivity|].
      eapply Forall_impl; [exact Hall|]. now intros x [_ Hx]. }
    assert (Hp : HasPrefix (join "/" (seg0 :: seg1 :: more)) "docker://" = false).
    { destruct (HasPrefix _ "docker://") eqn:E; [|reflexivity].
      apply docker_prefix_slash in E as [_ E]. congruence. }
    rewrite (TrimPrefix_id _ _ Hp), (cut_tag_none _ Hc). cbn [snd].
    rewrite read_segments_join; [now destruct (segments_rule seg0 seg1 more)|].
    eapply Forall_impl; [exact Hall|]. now intros x [Hx _].
  - intros seg0 seg1 more tag Hall Hts Htc Hp info. subst info.
    rewrite ParseDockerImage_unfold. cbn [Namespace Repository].
    set (name := join "/" (seg0 :: seg1 :: more)) in *.
    assert (Hp' : HasPrefix (name +:+ String ":" tag) "docker://" = false).
    { destruct (HasPrefix (name +:+ String ":" tag) "docker://") eqn:E; [|reflexivity].
      destruct (docker_prefix_cases name tag E) as [[Hn [b' ->]] | [a' Hn]].
      - discriminate Hts.
      - rewrite Hn, HasPrefix_app in Hp. discriminate Hp. }
    change (name +:+ ":" +:+ tag) with (name +:+ String ":" tag).
    rewrite (TrimPrefix_id _ _ Hp'), (cut_tag_app name tag Htc), Hts. cbn [snd].
    subst name. rewrite read_segments_join by exact Hall.
    now destruct (segments_rule seg0 seg1 more).
  - intros image. exists (TrimPrefix image "docker://").
    assert (Htext : image_text image (TrimPrefix image "docker://")).
    { unfold image_text, TrimPrefix.
      destruct (HasPrefix image "docker://") eqn:E.
      - left. now apply HasPrefix_inv.
      - right. now split. }
    set (s := TrimPrefix image "docker://") in *.
    pose proof (Split_not_nil "/" s) as Hne.
    pose proof (Split_parts "/" s) as Hparts.
    pose proof (join_Split "/" s) as Hjoin.
    destruct (exists_last Hne) as (init & whole & E). rewrite E in Hparts, Hjoin.
    apply Forall_app in Hparts as [Hinit Hwhole].
    inversion Hwhole as [|? ? Hw _]; subst.
    destruct (occurs ":" whole) eqn:Hc.
    + destruct (last_byte_split _ _ Hc) as (last & t & -> & Ht).
      rewrite occurs_app in Hw. apply orb_false_iff in Hw as [Hl Hts].
      exists init, last, (Some t).
      split; [exact Htext | split; [|symmetry; exact Hjoin]].
      split; [exact Hinit | split; [exact Hl | split; [exact Hts | exact Ht]]].
    + exists init, whole, None.
      split; [exact Htext | split; [|symmetry; exact Hjoin]].
      split; [exact Hinit | split; [exact Hw | exact Hc]].
  - intros image s init last tag Htext (Hinit & Hlast & Htag) Hs info. subst info.
    rewrite ParseDockerImage_unfold. cbn [Tag Namespace Repository FullName].
    rewrite (image_text_TrimPrefix _ _ Htext).
    assert (Hcut : cut_tag s =
                   (match tag with Some t => t | None => EmptyString end,
                    join "/" (init ++ [last]))).
    { destruct tag as [t|]; cbn [last_segment] in Hs.
      - destruct Htag as [Hts Htc].
        change (last +:+ ":" +:+ t) with (last +:+ String ":" t) in Hs.
        rewrite join_snoc_app in Hs. rewrite Hs, (cut_tag_app _ t Htc).
        unfold no_slash in Hts. now rewrite Hts.
      - rewrite Hs. now apply cut_tag_untagged. }
    rewrite Hcut. cbn [fst snd]. rewrite (read_segments_path init last Hinit Hlast).
    split; [|split; [now destruct (path_rule (init ++ [last])) | reflexivity]].
    destruct tag as [t|]; reflexivity.
Qed.

Lemma ParseDockerImage_spec_witness :
  (Namespace (ParseDockerImage ("nginx" +:+ ":" +:+ "1.21")) = "library" /\
   Repository (ParseDockerImage ("nginx" +:+ ":" +:+ "1.21")) = "nginx") /\
  (let info := ParseDockerImage "docker://registry.example.com:5000/team/app" in
   Tag info = "latest" /\
   (Namespace info, Repository info) = ("team", "app") /\
   FullName info = Namespace info +:+ "/" +:+ Repository info).
Proof.
  destruct ParseDockerImage_spec as (_ & _ & H & _ & _ & _ & _ & _ & G).
  split.
  - apply (H "nginx" "1.21"); reflexivity.
  - apply (G "docker://registry.example.com:5000/team/app"
             "registry.example.com:5000/team/app"
             ["registry.example.com:5000"; "team"] "app" None).
    + left. reflexivity.
    + split; [repeat constructor | split; reflexivity].
    + reflexivity.
Defined.

(** The claim as first stated (the repository is the whole string whenever
    the string has no '/') fails on a tagged image. *)
Lemma ParseDockerImage_repository_not_whole_string :
  ~ (forall image,
        Contains image "/" = false ->
        Namespace (ParseDockerImage image) = "library" /\
        Repository (ParseDockerImage image) = image).
Proof.
  intros H. destruct (H "nginx:1.21" eq_refl) as [_ E].
  vm_compute in E. discriminate E.
Qed.

End ParseDockerImageSpec.



(** ** The allow-list and deny-list policy *)

Module AccessPolicy.
Import Strings AccessController ConfigScenarios Scenarios.

Lemma matchImageInList_false (info : DockerImageInfo) (l : list string) :
  matchImageInList info l = false <->
  Forall (fun item => matchImageItem info item = false) l.
Proof.
  induction l as [|item rest IH]; simpl.
  - split; [constructor | reflexivity].
  - destruct (matchImageItem info item) eqn:E.
    + split; [discriminate|]. intros H. inversion H; congruence.
    + rewrite IH. split; [now constructor|]. intros H. now inversion H.
Qed.

Lemma checkListLoop_false (username fullRepo : string) (l : list string) :
  checkListLoop username fullRepo l = false <->
  Forall (fun item => checkListItem username fullRepo item = false) l.
Proof.
  induction l as [|item rest IH]; simpl.
  - split; [constructor | reflexivity].
  - destruct (checkListItem username fullRepo item) eqn:E.
    + split; [discriminate|]. intros H. inversion H; congruence.
    + rewrite IH. split; [now constructor|]. intros H. now inversion H.
Qed.

Lemma nonempty_length (l : list string) : l <> [] -> (0 <? length l)%nat = true.
Proof. destruct l; [congruence | reflexivity]. Qed.

(** C2.  With a non-empty allow-list, a Docker image or a GitHub
    (user, repo) match list that matches no allow-list entry is rejected
    whatever the deny-list holds; with both lists empty every Docker image
    and every (user, repo) pair is allowed. *)
Theorem allow_list_monotonicity :
  (forall (cfg : AppConfig) (image : string),
      WhiteList (Proxy cfg) <> [] ->
      Forall (fun item => matchImageItem (ParseDockerImage image) item = false)
             (WhiteList (Proxy cfg)) ->
      fst (CheckDockerAccess cfg image) = false)
  /\ (forall (cfg : AppConfig) (user repo : string) (more : list string),
        WhiteList (Proxy cfg) <> [] ->
        Forall (fun item =>
                  checkListItem
                    (ToLower (TrimSpace user))
                    (ToLower (TrimSpace user) +:+ "/" +:+
                     ToLower (TrimSpace (TrimSuffix repo ".git")))
                    item = false)
               (WhiteList (Proxy cfg)) ->
        fst (CheckGitHubAccess cfg (user :: repo :: more)) = false)
  /\ (forall (cfg : AppConfig),
        WhiteList (Proxy cfg) = [] -> BlackList (Proxy cfg) = [] ->
        (forall image, CheckDockerAccess cfg image = (true, EmptyString)) /\
        (forall user repo more,
            CheckGitHubAccess cfg (user :: repo :: more) = (true, EmptyString))).
Proof.
  repeat apply conj.
  - intros cfg image Hne Hall. unfold CheckDockerAccess.
    apply matchImageInList_false in Hall.
    now rewrite Hall, (nonempty_length _ Hne).
  - intros cfg user repo more Hne Hall. unfold CheckGitHubAccess.
    apply checkListLoop_false in Hall.
    cbn [length Nat.ltb Nat.leb]. unfold checkList.
    cbn [length Nat.ltb Nat.leb at_ nth].
    rewrite Hall. now destruct (WhiteList (Proxy cfg)).
  - intros cfg Hw Hb. split.
    + intros image. unfold CheckDockerAccess. now rewrite Hw, Hb.
    + intros user repo more. unfold CheckGitHubAccess. now rewrite Hw, Hb.
Qed.

Lemma allow_list_monotonicity_witness :
  fst (CheckDockerAccess only_nginx "redis") = false /\
  fst (CheckGitHubAccess only_nginx ["torvalds"; "linux"]) = false /\
  CheckDockerAccess DefaultConfig "redis" = (true, EmptyString).
Proof.
  destruct allow_list_monotonicity as (Hd & Hg & He).
  split; [|split].
  - apply Hd; [discriminate|]. repeat constructor.
  - apply Hg; [discriminate|]. repeat constructor.
  - apply (He DefaultConfig); reflexivity.
Defined.

(** C3.  checkList has no branch for the repo-only wildcard entries that
    matchImageInList accepts: an entry [*/repo] or [*/repo*] matches the
    image but not the GitHub repository of the same name. *)
Theorem checkList_misses_repo_wildcard :
  checkList ["alice"; "widget"] ["*/widget"] = false /\
  checkList ["alice"; "widget"] ["*/wid*"] = false /\
  matchImageInList (ParseDockerImage "alice/widget") ["*/widget"] = true /\
  matchImageInList (ParseDockerImage "alice/widget") ["*/wid*"] = true /\
  CheckGitHubAccess any_widget ["alice"; "widget"] = (false, "不在GitHub仓库白名单内") /\
  CheckDockerAccess any_widget "alice/widget" = (true, EmptyString).
Proof. repeat split; vm_compute; reflexivity. Qed.

(** C7.  In the [*/repo*] branch of matchImageInList the repository is
    compared without lower-casing, unlike in the [*/repo] branch next to
    it: changing the case of the image name changes the answer. *)
Theorem matchImageInList_repo_prefix_case_sensitive :
  matchImageInList (ParseDockerImage "library/nginx") ["*/ngi*"] = true /\
  matchImageInList (ParseDockerImage "library/Nginx") ["*/ngi*"] = false /\
  matchImageInList (ParseDockerImage "library/Nginx") ["*/nginx"] = true.
Proof. repeat split; vm_compute; reflexivity. Qed.

End AccessPolicy.

Module AccessControllerTests.
Import Strings AccessController.

Example parse_nginx :
  ParseDockerImage "nginx" =
  {| Namespace := "library"; Repository := "nginx"; Tag := "latest";
     FullName := "library/nginx" |}.
Proof. reflexivity. Qed.

Example parse_ghcr :
  ParseDockerImage "ghcr.io/owner/img:v1" =
  {| Namespace := "owner"; Repository := "img"; Tag := "v1";
     FullName := "owner/img" |}.
Proof. reflexivity. Qed.

Example parse_port :
  ParseDockerImage "localhost:5000/foo/bar" =
  {| Namespace := "localhost:5000"; Repository := "foo"; Tag := "latest";
     FullName := "localhost:5000/foo" |}.
Proof. reflexivity. Qed.

Example split_ex : Split "a//b/" "/" = ["a"; ""; "b"; ""].
Proof. reflexivity. Qed.

Example trim_ex : TrimSpace "  a b  " = "a b".
Proof. reflexivity. Qed.

Example lower_ex : ToLower "AbC/z_Z" = "abc/z_z".
Proof. reflexivity. Qed.

Example lastindex_ex : LastIndex "a:b:c" ":" = 3%Z.
Proof. reflexivity. Qed.

Example replace_ex : ReplaceFirst "xx/blob/yy/blob/" "/blob/" "/raw/" = "xx/raw/yy/blob/".
Proof. reflexivity. Qed.


Import Regexp UrlTable.

Example url_release :
  checkURL "https://github.com/u/r/releases/download/v1/x.tar.gz" = Some ["u"; "r"].
Proof. vm_compute. reflexivity. Qed.

Example url_blob :
  checkURL "github.com/u/r/blob/main/a.txt" = Some ["u"; "r"].
Proof. vm_compute. reflexivity. Qed.

Example url_raw :
  checkURL "https://raw.githubusercontent.com/u/r/main/install.sh" = Some ["u"; "r"].
Proof. vm_compute. reflexivity. Qed.

Example url_gist :
  checkURL "https://gist.githubusercontent.com/u/abc/raw/f.txt" = Some ["u"].
Proof. vm_compute. reflexivity. Qed.

Example url_hf :
  checkURL "https://huggingface.co/spaces/org/model/resolve/main/x" =
  Some ["org"; "model/resolve/main/x"].
Proof. vm_compute. reflexivity. Qed.

Example url_hf2 :
  checkURL "https://huggingface.co/spaces/org" = Some ["spaces"; "org"].
Proof. vm_compute. reflexivity. Qed.

Example url_lfs :
  checkURL "https://cdn-lfs.hf.co/a/b" = Some ["a"; "b"; ""].
Proof. vm_compute. reflexivity. Qed.

Example url_lfs2 :
  checkURL "https://cdn-lfs.hf.co/a/b/c/d" = Some ["a"; "b"; "c/d"].
Proof. vm_compute. reflexivity. Qed.

Example url_docker :
  checkURL "https://download.docker.com/linux/static/stable/x86_64/docker-1.tgz" =
  Some ["linux"; "tgz"].
Proof. vm_compute. reflexivity. Qed.

Example url_assets :
  checkURL "http://opengraph.githubassets.com/abc/u/r" = Some ["opengraph"; "abc"].
Proof. vm_compute. reflexivity. Qed.

Example url_ftp : checkURL "https://ftp://example.com/file" = None.
Proof. vm_compute. reflexivity. Qed.

Example url_inner : checkURL "https://example.com/github.com/u/r/releases/x" = None.
Proof. vm_compute. reflexivity. Qed.

End AccessControllerTests.

Module ProxyFacts.
Import Strings Regexp UrlTable Http Gin Proxy ProxyTactics ConfigScenarios Scenarios.

Section WithUpstream.
Variable cfg : AppConfig.
Variable NewRequestError : string -> string -> option string.
Variable Do : list OutRequest -> OutRequest -> string + Response.
Variable ProcessSmart : string -> bool -> string -> option (string * Z).

Abbreviation pwr := (proxyWithRedirect cfg NewRequestError Do ProcessSmart).

(** Past the bound nothing is sent and the answer is 508. *)
Lemma pwr_loop_detected c sent u redirectCount :
  (redirectCount > maxRedirects)%Z ->
  pwr c sent u redirectCount =
  (String_ StatusLoopDetected "重定向次数过多，可能存在循环重定向" c, sent).
Proof.
  intros H. simp proxyWithRedirect.
  destruct (Z_gt_le_dec redirectCount maxRedirects) as [Hgt|Hle]; [reflexivity | lia].
Qed.

(** The requests a call sends are appended to the log, and there are at
    most [maxRedirects + 1 - redirectCount] of them. *)
Lemma pwr_sent_bound (n : nat) :
  forall c sent u redirectCount,
    (Z.to_nat (maxRedirects + 1 - redirectCount) <= n)%nat ->
    exists new,
      snd (pwr c sent u redirectCount) = sent ++ new /\
      (length new <= Z.to_nat (maxRedirects + 1 - redirectCount))%nat.
Proof.
  induction n as [|n IH]; intros c sent u rc Hn;
    simp proxyWithRedirect;
    (destruct (Z_gt_le_dec rc maxRedirects) as [Hgt|Hle]; simpl;
     [exists []; rewrite app_nil_r; split; [reflexivity | simpl; lia] |]).
  - unfold maxRedirects in *. lia.
  - assert (Hstep : (Z.to_nat (maxRedirects + 1 - rc) =
                     S (Z.to_nat (maxRedirects + 1 - (rc + 1))))%nat)
      by (unfold maxRedirects in *; lia).
    split_tests; cbn [snd];
      try (exists []; rewrite app_nil_r; split; [reflexivity | simpl; lia]);
      try (eexists [_]; split; [reflexivity | simpl; lia]);
      match goal with
      | |- context [pwr ?c' (sent ++ [?req]) ?loc (rc + 1)%Z] =>
          destruct (IH c' (sent ++ [req]) loc (rc + 1)%Z) as (new & -> & Hlen);
          [lia | exists (req :: new); split;
                 [now rewrite <- app_assoc | simpl; lia]]
      end.
Qed.

End WithUpstream.

Section WithUpstreamMain.
Variable cfg : AppConfig.
Variable NewRequestError : string -> string -> option string.
Variable Do : list OutRequest -> OutRequest -> string + Response.
Variable ProcessGitHubURLs : string -> bool -> string -> string + string.

Abbreviation pwr_main :=
  (ProxyMain.proxyWithRedirect cfg NewRequestError Do ProcessGitHubURLs).

Lemma pwr_main_loop_detected c sent u redirectCount :
  (redirectCount > ProxyMain.maxRedirects)%Z ->
  pwr_main c sent u redirectCount =
  (String_ StatusLoopDetected "重定向次数过多，可能存在循环重定向" c, sent).
Proof.
  intros H. simp proxyWithRedirect.
  destruct (Z_gt_le_dec redirectCount ProxyMain.maxRedirects) as [Hgt|Hle];
    [reflexivity | lia].
Qed.

Lemma pwr_main_sent_bound (n : nat) :
  forall c sent u redirectCount,
    (Z.to_nat (ProxyMain.maxRedirects + 1 - redirectCount) <= n)%nat ->
    exists new,
      snd (pwr_main c sent u redirectCount) = sent ++ new /\
      (length new <= Z.to_nat (ProxyMain.maxRedirects + 1 - redirectCount))%nat.
Proof.
  induction n as [|n IH]; intros c sent u rc Hn;
    simp proxyWithRedirect;
    (destruct (Z_gt_le_dec rc ProxyMain.maxRedirects) as [Hgt|Hle]; simpl;
     [exists []; rewrite app_nil_r; split; [reflexivity | simpl; lia] |]).
  - unfold ProxyMain.maxRedirects in *. lia.
  - assert (Hstep : (Z.to_nat (ProxyMain.maxRedirects + 1 - rc) =
                     S (Z.to_nat (ProxyMain.maxRedirects + 1 - (rc + 1))))%nat)
      by (unfold ProxyMain.maxRedirects in *; lia).
    split_tests; cbn [snd];
      try (exists []; rewrite app_nil_r; split; [reflexivity | simpl; lia]);
      try (eexists [_]; split; [reflexivity | simpl; lia]);
      match goal with
      | |- context [pwr_main ?c' (sent ++ [?req]) ?loc (rc + 1)%Z] =>
          destruct (IH c' (sent ++ [req]) loc (rc + 1)%Z) as (new & -> & Hlen);
          [lia | exists (req :: new); split;
                 [now rewrite <- app_assoc | simpl; lia]]
      end.
Qed.

End WithUpstreamMain.

(** C1, as amended.  A request handled by the generic URL proxy sends at
    most 21 requests upstream, the first one and at most 20 followed
    redirects, whatever the upstream answers; and a call whose redirect
    count exceeds 20 sends nothing and answers 508 with the message
    重定向次数过多，可能存在循环重定向.  This holds for handler and
    proxyWithRedirect of both variants of the proxy. *)
Theorem redirect_termination :
  forall (cfg : AppConfig)
         (NewRequestError : string -> string -> option string)
         (Do : list OutRequest -> OutRequest -> string + Response)
         (ProcessSmart : string -> bool -> string -> option (string * Z))
         (ProcessGitHubURLs : string -> bool -> string -> string + string)
         (c : Context) (sent : list OutRequest),
    (exists new,
        snd (handler cfg NewRequestError Do ProcessSmart c sent) = sent ++ new /\
        (length new <= 21)%nat) /\
    (exists new,
        snd (ProxyMain.handler cfg NewRequestError Do ProcessGitHubURLs c sent) =
        sent ++ new /\
        (length new <= 21)%nat) /\
    (forall u,
        exists new,
          snd (proxyRequest cfg NewRequestError Do ProcessSmart c sent u) = sent ++ new /\
          (length new <= 21)%nat) /\
    (forall u redirectCount,
        (redirectCount > 20)%Z ->
        proxyWithRedirect cfg NewRequestError Do ProcessSmart c sent u redirectCount =
        (String_ 508 "重定向次数过多，可能存在循环重定向" c, sent) /\
        ProxyMain.proxyWithRedirect cfg NewRequestError Do ProcessGitHubURLs
                                    c sent u redirectCount =
        (String_ 508 "重定向次数过多，可能存在循环重定向" c, sent)).
Proof.
  intros cfg NRE Do PS PG c sent.
  assert (Hreq : forall u, exists new,
             snd (proxyRequest cfg NRE Do PS c sent u) = sent ++ new /\
             (length new <= 21)%nat).
  { intros u. unfold proxyRequest.
    destruct (pwr_sent_bound cfg NRE Do PS 21 c sent u 0) as (new & E & Hlen);
      [reflexivity | exists new; split; [exact E | exact Hlen]]. }
  assert (Hmain : forall u, exists new,
             snd (ProxyMain.proxy cfg NRE Do PG c sent u) = sent ++ new /\
             (length new <= 21)%nat).
  { intros u. unfold ProxyMain.proxy.
    destruct (pwr_main_sent_bound cfg NRE Do PG 21 c sent u 0) as (new & E & Hlen);
      [reflexivity | exists new; split; [exact E | exact Hlen]]. }
  split; [|split; [|split]].
  - unfold handler.
    destruct (checkURL _) as [matches|];
      [destruct (AccessController.CheckGitHubAccess cfg matches) as [[|] reason]|];
      cbn [negb snd];
      first [ apply Hreq
            | exists []; rewrite app_nil_r; split; [reflexivity | simpl; lia] ].
  - unfold ProxyMain.handler.
    destruct (negb (HasPrefix _ "http"));
      [|destruct (checkURL _) as [matches|];
        [destruct (AccessController.CheckGitHubAccess cfg matches) as [[|] reason]|]];
      cbn [negb snd];
      first [ apply Hmain
            | exists []; rewrite app_nil_r; split; [reflexivity | simpl; lia] ].
  - exact Hreq.
  - intros u rc Hrc. split.
    + now apply pwr_loop_detected.
    + now apply pwr_main_loop_detected.
Qed.

Lemma redirect_termination_witness :
  proxyWithRedirect DefaultConfig (fun _ _ => None) redirect_forever
                    (fun _ _ _ => None) release_request [] "https://example.com/next" 21 =
  (String_ 508 "重定向次数过多，可能存在循环重定向" release_request, []).
Proof.
  apply (redirect_termination DefaultConfig (fun _ _ => None) redirect_forever
           (fun _ _ _ => None) (fun _ _ _ => inl "unused") release_request []).
  reflexivity.
Defined.

(** The claim's bound of 20 requests is exceeded: against an upstream that
    always redirects, one inbound request sends 21 requests before the
    proxy answers 508. *)
Lemma twenty_one_requests :
  let out := handler DefaultConfig (fun _ _ => None) redirect_forever
                     (fun _ _ _ => None) release_request [] in
  length (snd out) = 21%nat /\ Status (fst out) = 508%Z.
Proof. vm_compute. split; reflexivity. Qed.

End ProxyFacts.

(** ** Facts about the matcher and the pattern table *)

Module RegexpFacts.
Import Strings StringsSpec StringsFacts Regexp UrlTable RegexpSpec.

Lemma repeat_match_inv (P : captures -> Prop) k greedy cont :
  (forall s res, cont s = Some res -> P res) ->
  forall s min res, repeat_match k greedy min s cont = Some res -> P res.
Proof.
  intros Hc. induction s as [|c s IH]; intros min res H; simpl in H.
  - destruct greedy, min; simpl in H; try discriminate H;
      destruct (cont "") eqn:E; try discriminate H;
      injection H as <-; eapply Hc; eassumption.
  - destruct greedy.
    + destruct (class_match k c).
      * destruct (repeat_match k true (Nat.pred min) s cont) eqn:E.
        -- injection H as <-. eapply IH; eassumption.
        -- destruct min; [eapply Hc; eassumption | discriminate H].
      * destruct min; [eapply Hc; eassumption | discriminate H].
    + destruct min.
      * destruct (cont (String c s)) eqn:E.
        -- injection H as <-. eapply Hc; eassumption.
        -- destruct (class_match k c); [eapply IH; eassumption | discriminate H].
      * destruct (class_match k c); [eapply IH; eassumption | discriminate H].
Qed.

Lemma run_length (r : regex) :
  forall n s cs cont res,
    keeps_length cont -> run r n s cs cont = Some res -> length res = length cs.
Proof.
  induction r as [| | |l|k min greedy|r1 IH1 r2 IH2|r1 IH1 r2 IH2|r1 IH1|i r1 IH1];
    intros n s cs cont res Hk H; simpl in H.
  - eapply Hk; eassumption.
  - destruct (_ =? _)%nat; [eapply Hk; eassumption | discriminate H].
  - destruct s; [eapply Hk; eassumption | discriminate H].
  - destruct (HasPrefix s l); [eapply Hk; eassumption | discriminate H].
  - eapply (repeat_match_inv (fun res => length res = length cs)); [|exact H].
    intros s' res' E. cbv beta in *. eapply Hk; eassumption.
  - eapply IH1; [|exact H]. intros s' cs' res' E. eapply IH2; eassumption.
  - destruct (run r1 n s cs cont) eqn:E.
    + injection H as <-. eapply IH1; eassumption.
    + eapply IH2; eassumption.
  - destruct (run r1 n s cs cont) eqn:E.
    + injection H as <-. eapply IH1; eassumption.
    + eapply Hk; eassumption.
  - eapply IH1; [|exact H]. intros s' cs' res' E.
    cbv beta in E. apply Hk in E. rewrite E. apply length_insert.
Qed.

Lemma search_length (r : regex) (n : nat) (s : string) (res : captures) :
  search r n s = Some res -> length res = S (NumSubexp r).
Proof.
  assert (Hrun : forall s' res',
             run (Group 0 r) n s' (replicate (S (NumSubexp r)) EmptyString)
                 (fun _ cs => Some cs) = Some res' ->
             length res' = S (NumSubexp r)).
  { intros s' res' E. apply run_length in E; [|intros ? ? ? [= <-]; reflexivity].
    now rewrite length_replicate in E. }
  induction s as [|c s IH]; cbn [search]; intros H.
  - destruct (run (Group 0 r) n "" _ _) eqn:E; [|discriminate H].
    injection H as <-. eapply Hrun; eassumption.
  - destruct (run (Group 0 r) n (String c s) _ _) eqn:E.
    + injection H as <-. eapply Hrun; eassumption.
    + now apply IH.
Qed.

(** The number of submatches is the number of groups plus one. *)
Lemma FindStringSubmatch_length (r : regex) (text : string) (m : list string) :
  FindStringSubmatch r text = Some m -> length m = S (NumSubexp r).
Proof. apply search_length. Qed.

Lemma run_Cat r1 r2 n s cs cont :
  run (Cat r1 r2) n s cs cont = run r1 n s cs (fun s' cs' => run r2 n s' cs' cont).
Proof. reflexivity. Qed.

Lemma run_Opt r1 n s cs cont :
  run (Opt r1) n s cs cont =
  match run r1 n s cs cont with Some res => Some res | None => cont s cs end.
Proof. reflexivity. Qed.

Lemma run_Lit (l : string) n s cs cont res :
  run (Lit l) n s cs cont = Some res ->
  exists t, s = l +:+ t /\ cont t cs = Some res.
Proof.
  simpl. destruct (HasPrefix s l) eqn:E; [|discriminate].
  intros H. exists (slice_from s (String.length l)). split; [|exact H].
  now apply HasPrefix_inv.
Qed.

Lemma run_anchored_off host rest n s cs cont :
  String.length s <> n -> run (Group 0 (anchored host rest)) n s cs cont = None.
Proof.
  intros Hne. unfold anchored.
  change (Seq (BeginText :: scheme :: Lit host :: rest))
    with (Cat BeginText (Seq (scheme :: Lit host :: rest))).
  cbn [run]. now destruct (Nat.eqb_spec (String.length s) n).
Qed.

Lemma run_anchored_on host rest s cs cont :
  run (Group 0 (anchored host rest)) (String.length s) s cs cont =
  run (Seq (scheme :: Lit host :: rest)) (String.length s) s cs
      (fun s' cs' => cont s' (<[0%nat := slice_to s (String.length s - String.length s')]> cs')).
Proof.
  unfold anchored.
  change (Seq (BeginText :: scheme :: Lit host :: rest))
    with (Cat BeginText (Seq (scheme :: Lit host :: rest))).
  cbn [run]. now rewrite Nat.eqb_refl.
Qed.

Lemma search_anchored_tail host rest n s :
  (String.length s < n)%nat -> search (anchored host rest) n s = None.
Proof.
  induction s as [|c s IH]; intros Hlt; cbn [search].
  - rewrite run_anchored_off; [reflexivity | simpl in *; lia].
  - rewrite run_anchored_off by lia. apply IH. simpl in Hlt. lia.
Qed.

Lemma anchored_prefix host rest text m :
  FindStringSubmatch (anchored host rest) text = Some m ->
  exists t, text = host +:+ t \/ text = "http://" +:+ host +:+ t \/
            text = "https://" +:+ host +:+ t.
Proof.
  unfold FindStringSubmatch. intros H.
  assert (Hrun : exists cs cont res,
             run (Seq (scheme :: Lit host :: rest)) (String.length text) text cs cont
             = Some res).
  { destruct text as [|c text]; cbn [search] in H.
    - rewrite (run_anchored_on host rest "") in H.
      destruct (run _ _ "" _ _) eqn:E; [|discriminate H]. eauto.
    - rewrite (run_anchored_on host rest (String c text)) in H.
      destruct (run _ _ (String c text) _ _) eqn:E; [eauto|].
      rewrite search_anchored_tail in H by (simpl; lia). discriminate H. }
  clear H. destruct Hrun as (cs & cont & res & H).
  change (Seq (scheme :: Lit host :: rest))
    with (Cat scheme (Cat (Lit host) (Seq rest))) in H.
  rewrite run_Cat in H. unfold scheme in H. rewrite run_Opt in H.
  set (K := fun s' cs' =>
              run (Cat (Lit host) (Seq rest)) (String.length text) s' cs' cont) in *.
  assert (HK : forall s' cs' res', K s' cs' = Some res' -> exists t, s' = host +:+ t).
  { intros s' cs' res' E. unfold K in E. rewrite run_Cat in E.
    apply run_Lit in E as (t & -> & _). eauto. }
  destruct (run (Seq [Lit "http"; Opt (Lit "s"); Lit "://"]) _ text cs K) eqn:E.
  - clear H.
    change (Seq [Lit "http"; Opt (Lit "s"); Lit "://"])
      with (Cat (Lit "http") (Cat (Opt (Lit "s")) (Cat (Lit "://") Empty))) in E.
    rewrite run_Cat in E. apply run_Lit in E as (t1 & -> & E).
    rewrite run_Cat, run_Opt in E.
    destruct (run (Lit "s") _ t1 cs _) eqn:E1.
    + clear E. apply run_Lit in E1 as (t2 & -> & E1).
      rewrite run_Cat in E1. apply run_Lit in E1 as (t3 & -> & E1).
      cbn [run] in E1. apply HK in E1 as (t & ->). exists t. now right; right.
    + rewrite run_Cat in E. apply run_Lit in E as (t3 & -> & E).
      cbn [run] in E. apply HK in E as (t & ->). exists t. now right; left.
  - apply HK in H as (t & ->). exists t. now left.
Qed.

(** Patterns 0 to 4 of the table in their anchored reading. *)
Lemma exp_anchored :
  (exists rest, exp 0 = anchored "github.com/" rest) /\
  (exists rest, exp 1 = anchored "github.com/" rest) /\
  (exists rest, exp 2 = anchored "github.com/" rest) /\
  (exists rest, exp 3 = anchored "raw.github" rest) /\
  (exists rest, exp 4 = anchored "gist.github" rest).
Proof. repeat split; eexists; reflexivity. Qed.

Lemma gist_not_other host rest u :
  host = "github.com/" \/ host = "raw.github" ->
  gist_prefixed u -> FindStringSubmatch (anchored host rest) u = None.
Proof.
  intros Hhost (t & Hu).
  destruct (FindStringSubmatch (anchored host rest) u) as [m|] eqn:E; [|reflexivity].
  exfalso. apply anchored_prefix in E as (t' & E).
  destruct Hhost as [-> | ->];
    destruct Hu as [-> | [-> | ->]]; destruct E as [E | [E | E]];
    simpl in E; discriminate E.
Qed.

(** A target the gist pattern matches is matched by no earlier pattern, so
    checkURL reports the one submatch of the gist pattern. *)
Lemma checkURL_gist (u : string) :
  MatchString (exp 4) u = true ->
  exists user, checkURL u = Some [user].
Proof.
  unfold MatchString. destruct (FindStringSubmatch (exp 4) u) as [m|] eqn:E4;
    [intros _ | discriminate].
  destruct exp_anchored as ((r0 & E0) & (r1 & E1) & (r2 & E2) & (r3 & E3) & (r4 & E4')).
  assert (Hg : gist_prefixed u).
  { rewrite E4' in E4. apply anchored_prefix in E4. exact E4. }
  pose proof (FindStringSubmatch_length _ _ _ E4) as Hlen.
  change (NumSubexp (exp 4)) with 1%nat in Hlen.
  destruct m as [|whole [|user [|]]]; try discriminate Hlen.
  exists user. unfold checkURL.
  change exps with (exp 0 :: exp 1 :: exp 2 :: exp 3 :: exp 4 :: skipn 5 exps).
  cbn [first_match].
  rewrite E0, E1, E2, E3.
  rewrite !gist_not_other by (auto || exact Hg).
  rewrite E4. reflexivity.
Qed.

End RegexpFacts.

(** ** Requests for gists *)

Module GistRequests.
Import Strings Regexp UrlTable Http Gin Proxy RegexpSpec RegexpFacts ConfigScenarios Scenarios.

(** C10.  The gist pattern is the only pattern of the table with a single
    capture group; CheckGitHubAccess rejects every match list with fewer than
    two entries, under every configuration; and so a request whose target URL
    the gist pattern matches is answered 403 by handler and nothing is sent
    upstream, whatever the configuration and the upstream are. *)
Theorem gist_requests_forbidden :
  map NumSubexp exps = [2; 2; 2; 2; 1; 2; 2; 3; 2; 2]%nat /\
  (forall (cfg : AppConfig) (matches : list string),
      (length matches < 2)%nat ->
      AccessController.CheckGitHubAccess cfg matches = (false, "无效的GitHub仓库格式")) /\
  (forall (cfg : AppConfig)
          (NewRequestError : string -> string -> option string)
          (Do : list OutRequest -> OutRequest -> string + Response)
          (ProcessSmart : string -> bool -> string -> option (string * Z))
          (c : Context) (sent : list OutRequest),
      MatchString (exp 4) (target_url (RequestURI (Request c))) = true ->
      handler cfg NewRequestError Do ProcessSmart c sent =
      (String_ 403 "无效的GitHub仓库格式" c, sent)).
Proof.
  split; [reflexivity | split].
  - intros cfg matches Hlen. unfold AccessController.CheckGitHubAccess.
    now destruct (Nat.ltb_spec (length matches) 2); [|lia].
  - intros cfg NRE Do PS c sent Hm.
    destruct (checkURL_gist _ Hm) as (user & Hu).
    unfold handler. rewrite Hu. reflexivity.
Qed.

Lemma gist_requests_forbidden_witness :
  handler DefaultConfig (fun _ _ => None) (fun _ _ => inl "unreachable")
          (fun _ _ _ => None) gist_request [] =
  (String_ 403 "无效的GitHub仓库格式" gist_request, []).
Proof.
  destruct gist_requests_forbidden as (_ & _ & H).
  apply H. vm_compute. reflexivity.
Defined.

End GistRequests.

(** ** The configuration store: what a failed reload leaves behind *)

Module ConfigFacts.
Import Config ConfigSpec ConfigScenarios Scenarios.

Lemma copy_config_id (cfg : AppConfig) : copy_config cfg = cfg.
Proof.
  destruct cfg as [sv rl [sw sb] [pw pb] dl rg tc]. reflexivity.
Qed.

Section WithEnvironment.
Variable Getenv : string -> string.
Variable ParseFloat : string -> option Q.

Lemma setConfig_coherent cfg st : coherent (setConfig cfg st).
Proof. now left. Qed.

Lemma GetConfig_coherent now st :
  coherent st ->
  fst (GetConfig now st) = published st /\
  coherent (snd (GetConfig now st)) /\
  published (snd (GetConfig now st)) = published st.
Proof.
  intros Hc. unfold GetConfig, cache_fresh.
  destruct (cachedConfig st) as [config|] eqn:Ecache.
  - destruct Hc as [Hc | Hc]; [congruence|]. rewrite Ecache in Hc.
    injection Hc as ->.
    destruct (now - configCacheTime st <? configCacheTTL)%Z; cbn [fst snd].
    + repeat split. right. exact Ecache.
    + unfold published. destruct (appConfig st) as [cfg|]; cbn [fst snd].
      * rewrite copy_config_id. repeat split. now right.
      * repeat split. now right.
  - unfold published. destruct (appConfig st) as [cfg|] eqn:Eapp; cbn [fst snd].
    + rewrite copy_config_id. repeat split. now right.
    + repeat split. now right.
Qed.

Lemma reachable_coherent st : reachable Getenv ParseFloat st -> coherent st.
Proof.
  induction 1 as [|now st _ IH|file tomlUnmarshal st _ IH|viperUnmarshal st _ IH].
  - now left.
  - now apply GetConfig_coherent.
  - unfold LoadConfig.
    destruct (match file with Some data => _ | None => _ end); cbn [fst snd];
      [exact IH | apply setConfig_coherent].
  - unfold hotReloadWithViper.
    destruct (viperUnmarshal DefaultConfig); cbn [fst];
      [exact IH | apply setConfig_coherent].
Qed.

Lemma GetConfig_run_published times :
  forall st, coherent st ->
             Forall (fun cfg => cfg = published st) (GetConfig_run times st).
Proof.
  induction times as [|now rest IH]; intros st Hc; cbn [GetConfig_run].
  - constructor.
  - destruct (GetConfig_coherent now st Hc) as (Hv & Hc' & Hp).
    destruct (GetConfig now st) as [cfg st'] eqn:E. cbn [fst snd] in *.
    constructor; [exact Hv|].
    rewrite <- Hp. now apply IH.
Qed.

(** C8.  When the configuration fails to parse during a hot reload, the
    state of the store is left as it was, setConfig is not called, and every
    later GetConfig call returns the values of the snapshot published before
    the reload. *)
Theorem failed_reload_keeps_snapshot
        (viperUnmarshal : AppConfig -> string + AppConfig)
        (st : State) (err : string) :
  reachable Getenv ParseFloat st ->
  viperUnmarshal DefaultConfig = inl err ->
  let after := hotReloadWithViper Getenv ParseFloat viperUnmarshal st in
  fst after = st /\
  (forall cfg, ~ In (CalledSetConfig cfg) (snd after)) /\
  (forall times,
      Forall (fun cfg => cfg = published st) (GetConfig_run times (fst after))).
Proof.
  intros Hr Herr after. subst after. unfold hotReloadWithViper. rewrite Herr.
  cbn [fst snd]. split; [reflexivity | split].
  - intros cfg [H | []]. discriminate H.
  - intros times. apply GetConfig_run_published. now apply reachable_coherent.
Qed.

End WithEnvironment.

Lemma failed_reload_keeps_snapshot_witness :
  let after := hotReloadWithViper no_env no_float (fun _ => inl "bad toml") loaded in
  fst after = loaded /\
  (forall cfg, ~ In (CalledSetConfig cfg) (snd after)) /\
  (forall times,
      Forall (fun cfg => cfg = published loaded) (GetConfig_run times (fst after))).
Proof.
  apply (failed_reload_keeps_snapshot no_env no_float (fun _ => inl "bad toml")
           loaded "bad toml").
  - apply reach_LoadConfig. apply reach_initial.
  - reflexivity.
Defined.

End ConfigFacts.

Module NetTests.
Import Net.

Example ip4 : ParseIP "192.0.2.7" = Some [0;0;0;0;0;0;0;0;0;0;255;255;192;0;2;7]%Z.
Proof. vm_compute. reflexivity. Qed.
Example ip4_bad : ParseIP "192.0.02.7" = None.
Proof. vm_compute. reflexivity. Qed.
Example ip4_bad2 : ParseIP "192.0.2.256" = None.
Proof. vm_compute. reflexivity. Qed.
Example ip6 : ParseIP "2001:db8::1" = Some [32;1;13;184;0;0;0;0;0;0;0;0;0;0;0;1]%Z.
Proof. vm_compute. reflexivity. Qed.
Example ip6_full : ParseIP "1:2:3:4:5:6:7:8" = Some [0;1;0;2;0;3;0;4;0;5;0;6;0;7;0;8]%Z.
Proof. vm_compute. reflexivity. Qed.
Example ip6_any : ParseIP "::" = Some [0;0;0;0;0;0;0;0;0;0;0;0;0;0;0;0]%Z.
Proof. vm_compute. reflexivity. Qed.
Example ip6_lead : ParseIP "::1" = Some [0;0;0;0;0;0;0;0;0;0;0;0;0;0;0;1]%Z.
Proof. vm_compute. reflexivity. Qed.
Example ip6_trail : ParseIP "fe80::" = Some [254;128;0;0;0;0;0;0;0;0;0;0;0;0;0;0]%Z.
Proof. vm_compute. reflexivity. Qed.
Example ip6_v4 : ParseIP "::ffff:1.2.3.4" = Some [0;0;0;0;0;0;0;0;0;0;255;255;1;2;3;4]%Z.
Proof. vm_compute. reflexivity. Qed.
Example ip6_bad1 : ParseIP "1:2:3:4:5:6:7" = None.
Proof. vm_compute. reflexivity. Qed.
Example ip6_bad2 : ParseIP "1::2::3" = None.
Proof. vm_compute. reflexivity. Qed.
Example ip6_bad3 : ParseIP "1:2:3:4:5:6:7:8:9" = None.
Proof. vm_compute. reflexivity. Qed.
Example ip6_bad4 : ParseIP "1:2:3:4:5:6:7::8" = None.
Proof. vm_compute. reflexivity. Qed.
Example ip6_bad5 : ParseIP "12345::" = None.
Proof. vm_compute. reflexivity. Qed.
Example ip6_zone : ParseIP "fe80::1%eth0" = None.
Proof. vm_compute. reflexivity. Qed.
Example ip_none : ParseIP "example" = None.
Proof. vm_compute. reflexivity. Qed.
Example str6 : String_ [32;1;13;184;0;0;0;0;0;0;0;0;0;0;0;0]%Z = "2001:db8::".
Proof. vm_compute. reflexivity. Qed.
Example str6b : String_ [32;1;0;0;0;0;0;1;0;0;0;0;0;0;0;1]%Z = "2001:0:0:1::1".
Proof. vm_compute. reflexivity. Qed.
Example str6c : String_ [0;1;0;0;0;0;0;1;0;0;0;0;0;2;0;1]%Z = "1::1:0:0:2:1".
Proof. vm_compute. reflexivity. Qed.
Example str6d : String_ [0;1;0;0;0;0;0;1;0;0;0;0;0;2;0;0]%Z = "1::1:0:0:2:0".
Proof. vm_compute. reflexivity. Qed.
Example str6e : String_ [0;0;0;0;0;0;0;0;0;0;0;0;0;0;0;0]%Z = "::".
Proof. vm_compute. reflexivity. Qed.
Example str6f : String_ [0;1;0;2;0;3;0;4;0;5;0;6;0;7;0;0]%Z = "1:2:3:4:5:6:7:0".
Proof. vm_compute. reflexivity. Qed.
Example str4 : String_ [0;0;0;0;0;0;0;0;0;0;255;255;192;0;2;7]%Z = "192.0.2.7".
Proof. vm_compute. reflexivity. Qed.
Example cidr4 :
  ParseCIDR "192.0.2.7/24" =
  Some ([0;0;0;0;0;0;0;0;0;0;255;255;192;0;2;7]%Z,
        {| NetIP := [192;0;2;0]%Z; Mask := [255;255;255;0]%Z |}).
Proof. vm_compute. reflexivity. Qed.
Example cidr6 :
  option_map snd (ParseCIDR "2001:db8::1/33") =
  Some {| NetIP := [32;1;13;184;0;0;0;0;0;0;0;0;0;0;0;0]%Z;
          Mask := [255;255;255;255;128;0;0;0;0;0;0;0;0;0;0;0]%Z |}.
Proof. vm_compute. reflexivity. Qed.
Example cidr_bad : ParseCIDR "192.0.2.7/33" = None.
Proof. vm_compute. reflexivity. Qed.
Example cidr_bad2 : ParseCIDR "192.0.2.7" = None.
Proof. vm_compute. reflexivity. Qed.
Example shp1 : SplitHostPort "192.0.2.7:8080" = Some ("192.0.2.7", "8080").
Proof. vm_compute. reflexivity. Qed.
Example shp2 : SplitHostPort "[2001:db8::1]:443" = Some ("2001:db8::1", "443").
Proof. vm_compute. reflexivity. Qed.
Example shp3 : SplitHostPort "2001:db8::1" = None.
Proof. vm_compute. reflexivity. Qed.
Example shp4 : SplitHostPort "192.0.2.7" = None.
Proof. vm_compute. reflexivity. Qed.

End NetTests.

(** ** The rate limiter: lists and responses *)

Module RateLimiterFacts.
Import Strings Net Http Gin RateLimiter ConfigScenarios Scenarios.

(** C5.  initGlobalLimiter appends "/32" to every entry without a '/': an
    IPv4 entry becomes the network of that one address, but an IPv6 entry
    becomes a /32 network, which holds other addresses as well. *)
Theorem single_ipv6_entry_becomes_slash_32 :
  blacklist (initGlobalLimiter (Limiter := Z) deny_two) =
  [ {| NetIP := [32; 1; 13; 184; 0; 0; 0; 0; 0; 0; 0; 0; 0; 0; 0; 0]%Z;
       Mask := [255; 255; 255; 255; 0; 0; 0; 0; 0; 0; 0; 0; 0; 0; 0; 0]%Z |};
    {| NetIP := [192; 0; 2; 7]%Z; Mask := [255; 255; 255; 255]%Z |} ] /\
  isIPInCIDRList "2001:db8:ffff::9"
                 (blacklist (initGlobalLimiter (Limiter := Z) deny_two)) = true /\
  isIPInCIDRList "192.0.2.8"
                 (blacklist (initGlobalLimiter (Limiter := Z) deny_two)) = false /\
  option_map snd (ParseCIDR "2001:db8::1/128") =
  Some {| NetIP := [32; 1; 13; 184; 0; 0; 0; 0; 0; 0; 0; 0; 0; 0; 0; 1]%Z;
          Mask := replicate 16 255%Z |}.
Proof. repeat split; vm_compute; reflexivity. Qed.

Section WithLimiter.
Context {Limiter : Type}.
Variable NewLimiter : Limit -> Z -> Limiter.
Variable Allow : Z -> Limiter -> bool * Limiter.

(** C9.  For a request on a path that is not exempt: when the client
    address is in the deny list, the middleware answers 403 with the JSON
    body {"error":"您已被限制访问"} and aborts, the rest of the chain is not
    run and the limiter is left as it was; when the address is not denied and
    [Allow] refuses a token of the limiter GetLimiter hands out, it answers
    429 with the JSON body {"error":"请求频率过快，暂时限制访问"} and aborts.
    Such an answer has the given status, is marked aborted, and its body is
    the JSON object. *)
Theorem rate_limit_responses
        (lim : IPRateLimiter) (now : Z) (next : Context -> Context) (c : Context) :
  exempt (Path (Request c)) = false ->
  let cleanIP := extractIPFromAddress (client_address (Request c)) in
  (isIPInCIDRList (extractIPFromAddress cleanIP) (blacklist lim) = true ->
   RateLimitMiddleware NewLimiter Allow lim now next c =
   (lim, Abort (JSON_error 403 "您已被限制访问" c))) /\
  (isIPInCIDRList (extractIPFromAddress cleanIP) (blacklist lim) = false ->
   exists lim' ref,
     GetLimiter NewLimiter lim now cleanIP = (lim', Some ref) /\
     (fst (Allow now (limiter_of ref)) = false ->
      snd (RateLimitMiddleware NewLimiter Allow lim now next c) =
      Abort (JSON_error 429 "请求频率过快，暂时限制访问" c))) /\
  (forall code msg,
      let answer := Abort (JSON_error code msg c) in
      Status answer = code /\ Aborted answer = true /\
      Written answer = Written c +:+ error_object msg).
Proof.
  intros Hex cleanIP. unfold RateLimitMiddleware. rewrite Hex.
  fold cleanIP. split; [|split]; [| |intros code msg; cbv zeta;
                            unfold JSON_error, writeContentType;
                            destruct (Header (set_status code c) !! "Content-Type")
                              as [[|]|]; repeat split].
  - intros Hdeny. unfold GetLimiter. now rewrite Hdeny.
  - intros Hok.
    assert (Hsome : exists lim' ref,
               GetLimiter NewLimiter lim now cleanIP = (lim', Some ref)).
    { unfold GetLimiter, touch. rewrite Hok.
      destruct (isIPInCIDRList _ (whitelist lim)); [eauto|].
      destruct (ips lim !! _); eauto. }
    destruct Hsome as (lim' & ref & E). exists lim', ref. split; [exact E|].
    intros Hrefuse. rewrite E. unfold allow_ref.
    destruct ref as [l | key l]; cbn [limiter_of] in Hrefuse.
    + now rewrite Hrefuse.
    + destruct (Allow now l) as [ok l']. cbn [fst] in Hrefuse. now subst ok.
Qed.

End WithLimiter.

Lemma rate_limit_responses_witness :
  RateLimitMiddleware counter_new counter_allow
                      (initGlobalLimiter (Limiter := Z) deny_two) 0 (fun c => c)
                      denied_request =
  (initGlobalLimiter (Limiter := Z) deny_two,
   Abort (JSON_error 403 "您已被限制访问" denied_request)).
Proof.
  destruct (rate_limit_responses counter_new counter_allow
              (initGlobalLimiter (Limiter := Z) deny_two) 0 (fun c => c) denied_request)
    as (H & _); [reflexivity|].
  apply H. vm_compute. reflexivity.
Defined.

End RateLimiterFacts.

(** ** The text of an IPv6 network address *)

Module NetFacts.
Import Strings StringsSpec StringsFacts Net NetSpec.

Lemma byte_is_byte (x : Z) : is_byte (byte x).
Proof. unfold is_byte, byte. apply Z.mod_pos_bound. lia. Qed.

Lemma array16_wf (l : list Z) : wf16 (array16 l).
Proof.
  unfold wf16, array16. split.
  - rewrite length_map, length_take, length_app, length_replicate. lia.
  - apply Forall_forall. intros x Hx. apply list_elem_of_In, in_map_iff in Hx.
    destruct Hx as (y & <- & _). apply byte_is_byte.
Qed.

Lemma parseIPv6_wf (s : string) (b : list Z) : parseIPv6 s = Some b -> wf16 b.
Proof.
  unfold parseIPv6.
  repeat match goal with
         | |- context [match ?x with _ => _ end] =>
             lazymatch x with
             | context [array16] => fail
             | _ => destruct x
             end
         end;
    intros H; try discriminate H; injection H as <-; apply array16_wf.
Qed.

Lemma ParseIP_wf (s : string) (ip : IP) : ParseIP s = Some ip -> wf16 ip.
Proof.
  unfold ParseIP, ParseAddr.
  destruct (family s) as [c|]; [|discriminate].
  destruct (Ascii.eqb_spec c "."); [subst c|destruct (Ascii.eqb_spec c ":"); [subst c|]].
  - destruct (parseIPv4 s); [|discriminate].
    cbn [option_map As16]. intros [= <-]. apply array16_wf.
  - destruct (parseIPv6 s) eqn:E; [|discriminate].
    cbn [option_map As16]. intros [= <-]. eapply parseIPv6_wf; eassumption.
  - destruct c as [[] [] [] [] [] [] [] []]; try discriminate; congruence.
Qed.

(** The sixteen bytes of a well-formed address, by name. *)
Lemma wf16_inv (ip : IP) :
  wf16 ip ->
  exists a0 a1 a2 a3 a4 a5 a6 a7 a8 a9 a10 a11 a12 a13 a14 a15,
    ip = [a0; a1; a2; a3; a4; a5; a6; a7; a8; a9; a10; a11; a12; a13; a14; a15] /\
    Forall is_byte [a0; a1; a2; a3; a4; a5; a6; a7].
Proof.
  intros [Hlen Hall].
  do 16 (destruct ip as [|? ip]; [discriminate Hlen|]).
  destruct ip; [|discriminate Hlen].
  do 16 eexists. split; [reflexivity|].
  repeat (apply Forall_cons_iff in Hall as [? Hall]).
  repeat (constructor; [assumption|]). constructor.
Qed.

(** *** Hexadecimal fields *)

Lemma in_bytes256 (x : Z) : is_byte x -> In x bytes256.
Proof.
  intros [Hlo Hhi]. unfold bytes256. apply in_map_iff.
  exists (Z.to_nat x). split; [lia|]. apply in_seq. lia.
Qed.

Lemma hex_ok_all :
  forallb (fun hi => forallb (fun lo => hex_ok (hi * 256 + lo)) bytes256) bytes256 = true.
Proof. vm_compute. reflexivity. Qed.

Lemma field_hex_ok (x : Z) : is_field x -> hex_ok x = true.
Proof.
  intros (hi & lo & Hhi & Hlo & ->).
  pose proof hex_ok_all as H.
  rewrite forallb_forall in H. specialize (H hi (in_bytes256 hi Hhi)).
  rewrite forallb_forall in H. exact (H lo (in_bytes256 lo Hlo)).
Qed.

Lemma appendHex_inj (x y : Z) :
  is_field x -> is_field y -> appendHex x = appendHex y -> x = y.
Proof.
  intros Hx Hy E. apply field_hex_ok in Hx, Hy. unfold hex_ok in Hx, Hy.
  apply andb_true_iff in Hx as [Hx _]. apply andb_true_iff in Hx as [Hx _].
  apply andb_true_iff in Hy as [Hy _]. apply andb_true_iff in Hy as [Hy _].
  apply Z.eqb_eq in Hx, Hy. rewrite <- Hx, <- Hy, E. reflexivity.
Qed.

Lemma appendHex_no_colon (x : Z) : is_field x -> occurs ":" (appendHex x) = false.
Proof.
  intros Hx. apply field_hex_ok in Hx. unfold hex_ok in Hx.
  apply andb_true_iff in Hx as [Hx _]. apply andb_true_iff in Hx as [_ Hx].
  now apply negb_true_iff in Hx.
Qed.

Lemma appendHex_not_empty (x : Z) : is_field x -> appendHex x <> EmptyString.
Proof.
  intros Hx. apply field_hex_ok in Hx. unfold hex_ok in Hx.
  apply andb_true_iff in Hx as [_ Hx]. apply negb_true_iff in Hx.
  intros E. rewrite E in Hx. discriminate Hx.
Qed.

(** Two texts that continue with a colon after a colon-free front are equal
    only if the fronts and the continuations are. *)
Lemma colon_split (a b x y : string) :
  occurs ":" a = false -> occurs ":" b = false ->
  a +:+ String ":" x = b +:+ String ":" y -> a = b /\ x = y.
Proof.
  revert b. induction a as [|c a IH]; intros b Ha Hb E.
  - destruct b as [|d b]; simpl in E.
    + injection E as ->. now split.
    + injection E as <- _. simpl in Hb. discriminate Hb.
  - destruct b as [|d b]; simpl in E.
    + injection E as -> _. simpl in Ha. discriminate Ha.
    + injection E as -> E. simpl in Ha, Hb.
      apply orb_false_iff in Ha as [_ Ha]. apply orb_false_iff in Hb as [_ Hb].
      destruct (IH b Ha Hb E) as [-> ->]. now split.
Qed.

Lemma canon_cons x rest :
  exists t, canon (x :: rest) = appendHex x +:+ String ":" t /\
            (rest = [] -> t = ":") /\
            (rest <> [] -> t = canon rest).
Proof.
  destruct rest as [|y rest].
  - exists ":". repeat split; congruence.
  - exists (canon (y :: rest)). repeat split; congruence.
Qed.

Lemma canon_inj (l1 l2 : list Z) :
  Forall is_field l1 -> Forall is_field l2 -> canon l1 = canon l2 -> l1 = l2.
Proof.
  revert l2. induction l1 as [|x l1 IH]; intros l2 H1 H2 E.
  - destruct l2 as [|y l2]; [reflexivity|].
    inversion H2 as [|? ? Hy _]; subst.
    destruct (canon_cons y l2) as (t & Et & _). rewrite Et in E.
    change (canon []) with ("" +:+ String ":" ":") in E.
    apply colon_split in E as [E _];
      [|reflexivity|now apply appendHex_no_colon].
    symmetry in E. now apply appendHex_not_empty in E.
  - destruct l2 as [|y l2].
    + inversion H1 as [|? ? Hx _]; subst.
      destruct (canon_cons x l1) as (t & Et & _). rewrite Et in E.
      change (canon []) with ("" +:+ String ":" ":") in E.
      apply colon_split in E as [E _];
        [|now apply appendHex_no_colon|reflexivity].
      now apply appendHex_not_empty in E.
    + inversion H1 as [|? ? Hx H1']; inversion H2 as [|? ? Hy H2']; subst.
      destruct (canon_cons x l1) as (t1 & Et1 & Hn1 & Hc1).
      destruct (canon_cons y l2) as (t2 & Et2 & Hn2 & Hc2).
      rewrite Et1, Et2 in E.
      apply colon_split in E as [Exy Et]; try now apply appendHex_no_colon.
      apply appendHex_inj in Exy; [subst y | assumption | assumption].
      f_equal.
      destruct l1 as [|x1 l1], l2 as [|y1 l2]; [reflexivity| | |].
      * rewrite (Hn1 eq_refl), (Hc2 ltac:(discriminate)) in Et.
        inversion H2' as [|? ? Hy1 _]; subst.
        destruct (canon_cons y1 l2) as (t & Ety & _). rewrite Ety in Et.
        change ":" with ("" +:+ String ":" "") in Et at 1.
        apply colon_split in Et as [Et _];
          [|reflexivity|now apply appendHex_no_colon].
        symmetry in Et. now apply appendHex_not_empty in Et.
      * rewrite (Hn2 eq_refl), (Hc1 ltac:(discriminate)) in Et.
        inversion H1' as [|? ? Hx1 _]; subst.
        destruct (canon_cons x1 l1) as (t & Etx & _). rewrite Etx in Et.
        change ":" with ("" +:+ String ":" "") in Et.
        apply colon_split in Et as [Et _];
          [|now apply appendHex_no_colon|reflexivity].
        now apply appendHex_not_empty in Et.
      * rewrite (Hc1 ltac:(discriminate)), (Hc2 ltac:(discriminate)) in Et.
        now apply IH.
Qed.

Lemma strip_Forall (P : Z -> Prop) (l : list Z) : Forall P l -> Forall P (strip l).
Proof.
  induction 1 as [|x l Hx Hl IH]; simpl; [constructor|].
  destruct (strip l); [destruct (x =? 0)%Z|];
    repeat first [assumption | constructor].
Qed.

Lemma strip_pad (l : list Z) :
  l = strip l ++ replicate (length l - length (strip l)) 0%Z.
Proof.
  induction l as [|x l IH]; simpl; [reflexivity|].
  destruct (strip l) as [|y rest] eqn:E.
  - destruct (Z.eqb_spec x 0) as [->|_]; simpl in *.
    + rewrite Nat.sub_0_r in IH. now rewrite <- IH.
    + rewrite Nat.sub_0_r in IH. rewrite Nat.sub_0_r, <- IH. reflexivity.
  - simpl in *. now rewrite <- IH.
Qed.

Lemma strip_inj (l1 l2 : list Z) :
  length l1 = length l2 -> strip l1 = strip l2 -> l1 = l2.
Proof.
  intros Hlen E. rewrite (strip_pad l1), (strip_pad l2), E, Hlen. reflexivity.
Qed.

#[local] Opaque appendHex.

(** The text of an address whose last four fields are zero. *)
Lemma string6_fields (g0 g1 g2 g3 : Z) :
  (let '(zeroStart, zeroEnd) :=
     longest_zero_run 0 [g0; g1; g2; g3; 0; 0; 0; 0]%Z (255, 255)%nat in
   write_fields 0 [g0; g1; g2; g3; 0; 0; 0; 0]%Z zeroStart zeroEnd) =
  canon (strip [g0; g1; g2; g3]).
Proof.
  destruct g0, g1, g2, g3; lazy; reflexivity.
Qed.

Lemma string6_network (a0 a1 a2 a3 a4 a5 a6 a7 : Z) :
  string6 [a0; a1; a2; a3; a4; a5; a6; a7; 0; 0; 0; 0; 0; 0; 0; 0]%Z =
  canon (strip [a0 * 256 + a1; a2 * 256 + a3; a4 * 256 + a5; a6 * 256 + a7]%Z).
Proof.
  unfold string6. cbn [v6u16].
  change (0 * 256 + 0)%Z with 0%Z.
  apply string6_fields.
Qed.

#[local] Transparent appendHex.

End NetFacts.

(** ** The rate limiter: the bucket of an address *)

Module BucketKeys.
Import Strings StringsSpec StringsFacts Net NetSpec NetFacts Http Gin RateLimiter BucketSpec.
Import ConfigScenarios Scenarios.

Lemma To4_network (a0 a1 a2 a3 a4 a5 a6 a7 : Z) :
  To4 [a0; a1; a2; a3; a4; a5; a6; a7; 0; 0; 0; 0; 0; 0; 0; 0]%Z = None.
Proof.
  unfold To4. cbn [length Nat.eqb IPv4len IPv6len nth Z.eqb andb].
  now destruct (isZeros _).
Qed.

Lemma String_network (a0 a1 a2 a3 a4 a5 a6 a7 : Z) :
  Net.String_ [a0; a1; a2; a3; a4; a5; a6; a7; 0; 0; 0; 0; 0; 0; 0; 0]%Z =
  canon (strip [a0 * 256 + a1; a2 * 256 + a3; a4 * 256 + a5; a6 * 256 + a7]%Z).
Proof.
  unfold Net.String_. cbn [length Nat.eqb IPv4len IPv6len negb andb].
  rewrite To4_network. apply string6_network.
Qed.

Lemma normalize_v6 (s : string) (ip : IP) :
  ParseIP s = Some ip -> To4 ip = None ->
  normalizeIPForRateLimit s = canon (strip (upper_fields ip)) +:+ "/64" /\
  Forall is_field (upper_fields ip) /\
  length (upper_fields ip) = 4%nat.
Proof.
  intros Hp H4. unfold normalizeIPForRateLimit. rewrite Hp, H4.
  destruct (wf16_inv ip (ParseIP_wf _ _ Hp))
    as (a0 & a1 & a2 & a3 & a4 & a5 & a6 & a7 & a8 & a9 & a10 & a11 & a12 & a13 &
        a14 & a15 & -> & Hb).
  change (To16 _) with (Some [a0; a1; a2; a3; a4; a5; a6; a7; a8; a9; a10; a11;
                              a12; a13; a14; a15]).
  cbv beta iota.
  change (clear_low_bytes _)
    with [a0; a1; a2; a3; a4; a5; a6; a7; 0; 0; 0; 0; 0; 0; 0; 0]%Z.
  rewrite String_network. split; [reflexivity|]. split; [|reflexivity].
  repeat (apply Forall_cons_iff in Hb as [? Hb]).
  unfold upper_fields. cbn [v6u16 take].
  repeat constructor; unfold is_field; eauto 8.
Qed.

Lemma append_inv_tail (a b t : string) : a +:+ t = b +:+ t -> a = b.
Proof.
  revert b. induction a as [|c a IH]; intros b E.
  - destruct b as [|d b]; [reflexivity|]. simpl in E.
    apply (f_equal String.length) in E. simpl in E. rewrite length_append in E. lia.
  - destruct b as [|d b]; simpl in E.
    + apply (f_equal String.length) in E. simpl in E. rewrite length_append in E. lia.
    + injection E as -> E. f_equal. now apply IH.
Qed.

(** Two bytes are read back from the field they make. *)
Lemma field_bytes (h1 l1 h2 l2 : Z) :
  is_byte h1 -> is_byte l1 -> is_byte h2 -> is_byte l2 ->
  (h1 * 256 + l1 = h2 * 256 + l2)%Z -> h1 = h2 /\ l1 = l2.
Proof. unfold is_byte. lia. Qed.

Lemma upper_fields_bytes (ip1 ip2 : IP) :
  wf16 ip1 -> wf16 ip2 ->
  (upper_fields ip1 = upper_fields ip2 <-> take 8 ip1 = take 8 ip2).
Proof.
  intros H1 H2.
  destruct (wf16_inv ip1 H1)
    as (a0 & a1 & a2 & a3 & a4 & a5 & a6 & a7 & a8 & a9 & a10 & a11 & a12 & a13 &
        a14 & a15 & -> & Ha).
  destruct (wf16_inv ip2 H2)
    as (b0 & b1 & b2 & b3 & b4 & b5 & b6 & b7 & b8 & b9 & b10 & b11 & b12 & b13 &
        b14 & b15 & -> & Hb).
  repeat (apply Forall_cons_iff in Ha as [? Ha]).
  repeat (apply Forall_cons_iff in Hb as [? Hb]).
  unfold upper_fields. cbn [v6u16 take]. split.
  - intros [= E0 E1 E2 E3].
    apply field_bytes in E0 as [-> ->]; try assumption.
    apply field_bytes in E1 as [-> ->]; try assumption.
    apply field_bytes in E2 as [-> ->]; try assumption.
    apply field_bytes in E3 as [-> ->]; try assumption.
    reflexivity.
  - intros [= -> -> -> -> -> -> -> ->]. reflexivity.
Qed.

(** Two addresses that are not IPv4 get the same key if and only if their
    upper 64 bits are equal. *)
Lemma normalize_v6_iff (s1 s2 : string) (ip1 ip2 : IP) :
  ParseIP s1 = Some ip1 -> ParseIP s2 = Some ip2 ->
  To4 ip1 = None -> To4 ip2 = None ->
  (normalizeIPForRateLimit s1 = normalizeIPForRateLimit s2 <->
   take 8 ip1 = take 8 ip2).
Proof.
  intros Hp1 Hp2 H41 H42.
  destruct (normalize_v6 s1 ip1 Hp1 H41) as (-> & Hf1 & Hl1).
  destruct (normalize_v6 s2 ip2 Hp2 H42) as (-> & Hf2 & Hl2).
  rewrite <- (upper_fields_bytes ip1 ip2) by (eapply ParseIP_wf; eassumption).
  split.
  - intros E. apply append_inv_tail in E.
    apply canon_inj in E; try now apply strip_Forall.
    apply strip_inj; [congruence | exact E].
  - now intros ->.
Qed.

Section WithLimiter.
Context {Limiter : Type}.
Variable NewLimiter : Limit -> Z -> Limiter.

Variable Allow : Z -> Limiter -> bool * Limiter.

(** For an address in neither list GetLimiter hands out the limiter of the
    table entry under the normalised address, the one that is there or a new
    one, and leaves it in the table under that key, stamped with the time. *)
Lemma GetLimiter_table (lim : IPRateLimiter) (now : Z) (a : string) :
  let c := extractIPFromAddress a in
  let key := normalizeIPForRateLimit c in
  isIPInCIDRList c (blacklist lim) = false ->
  isIPInCIDRList c (whitelist lim) = false ->
  GetLimiter NewLimiter lim now a =
  (with_ips lim (<[key := {| limiter := bucket NewLimiter lim key; lastAccess := now |}]>
                   (ips lim)),
   Some (Entry key (bucket NewLimiter lim key))).
Proof.
  intros c key Hb Hw. unfold GetLimiter, touch, bucket. fold c. rewrite Hb, Hw.
  cbv zeta. fold key. now destruct (ips lim !! key).
Qed.

(** [Allow] on the limiter of a table entry leaves the limiter it returns in
    that entry. *)
Lemma allow_ref_table (lim : IPRateLimiter) (table : gmap string rateLimiterEntry)
      (now stamp : Z) (key : string) (l : Limiter) :
  allow_ref Allow (with_ips lim (<[key := {| limiter := l; lastAccess := stamp |}]> table))
            now (Entry key l) =
  (fst (Allow now l),
   with_ips lim (<[key := {| limiter := snd (Allow now l); lastAccess := stamp |}]> table)).
Proof.
  unfold allow_ref. destruct (Allow now l) as [ok l']. cbn [fst snd ips with_ips].
  now rewrite alter_insert_eq.
Qed.

(** C4, as amended.  Take two client addresses that net.ParseIP accepts and
    that are in neither the allow nor the deny list, and serve a request of
    the first at time [now] and then a request of the second at time [now']:
    each request calls GetLimiter and then [Allow] on the limiter it is
    handed.  The first request is handed the limiter [l1] of the table entry
    under its normalised address, and its [Allow] leaves the limiter
    [l1' = snd (Allow now l1)] in that entry.  When neither address is an IPv4
    address ([To4] is nil, which excludes the IPv4-mapped IPv6 addresses),
    the two keys are equal if and only if the upper 64 bits of the addresses
    are equal.  In that case the second request is handed [l1'], the limiter
    as the first request left it, its answer is that of [Allow now' l1'], and
    the one entry then holds the limiter after both: one shared bucket.
    Otherwise the second request is handed the limiter of the entry under its
    own key, and the entry of the first still holds [l1'] afterwards.  An
    IPv4 address is keyed by its own text. *)
Theorem slash64_buckets
        (lim : IPRateLimiter) (now now' : Z) (a1 a2 : string) (ip1 ip2 : IP) :
  let c1 := extractIPFromAddress a1 in
  let c2 := extractIPFromAddress a2 in
  let key1 := normalizeIPForRateLimit c1 in
  let key2 := normalizeIPForRateLimit c2 in
  ParseIP c1 = Some ip1 -> ParseIP c2 = Some ip2 ->
  isIPInCIDRList c1 (blacklist lim) = false ->
  isIPInCIDRList c1 (whitelist lim) = false ->
  isIPInCIDRList c2 (blacklist lim) = false ->
  isIPInCIDRList c2 (whitelist lim) = false ->
  let l1 := bucket NewLimiter lim key1 in
  let l2 := bucket NewLimiter lim key2 in
  let l1' := snd (Allow now l1) in
  let got1 := GetLimiter NewLimiter lim now a1 in
  let spent1 := allow_ref Allow (fst got1) now (Entry key1 l1) in
  let got2 := GetLimiter NewLimiter (snd spent1) now' a2 in
  got1 =
  (with_ips lim (<[key1 := {| limiter := l1; lastAccess := now |}]> (ips lim)),
   Some (Entry key1 l1)) /\
  spent1 =
  (fst (Allow now l1),
   with_ips lim (<[key1 := {| limiter := l1'; lastAccess := now |}]> (ips lim))) /\
  (To4 ip1 = None -> To4 ip2 = None ->
   (key1 = key2 <-> take 8 ip1 = take 8 ip2) /\
   (take 8 ip1 = take 8 ip2 ->
    got2 =
    (with_ips lim (<[key1 := {| limiter := l1'; lastAccess := now' |}]> (ips lim)),
     Some (Entry key1 l1')) /\
    allow_ref Allow (fst got2) now' (Entry key1 l1') =
    (fst (Allow now' l1'),
     with_ips lim (<[key1 := {| limiter := snd (Allow now' l1'); lastAccess := now' |}]>
                     (ips lim)))) /\
   (take 8 ip1 <> take 8 ip2 ->
    got2 =
    (with_ips lim (<[key2 := {| limiter := l2; lastAccess := now' |}]>
                     (<[key1 := {| limiter := l1'; lastAccess := now |}]> (ips lim))),
     Some (Entry key2 l2)) /\
    allow_ref Allow (fst got2) now' (Entry key2 l2) =
    (fst (Allow now' l2),
     with_ips lim (<[key2 := {| limiter := snd (Allow now' l2); lastAccess := now' |}]>
                     (<[key1 := {| limiter := l1'; lastAccess := now |}]> (ips lim)))))) /\
  (To4 ip1 <> None -> key1 = c1).
Proof.
  intros c1 c2 key1 key2 Hp1 Hp2 Hb1 Hw1 Hb2 Hw2 l1 l2 l1' got1 spent1 got2.
  assert (E1 : got1 =
               (with_ips lim (<[key1 := {| limiter := l1; lastAccess := now |}]> (ips lim)),
                Some (Entry key1 l1))).
  { exact (GetLimiter_table lim now a1 Hb1 Hw1). }
  assert (E2 : spent1 =
               (fst (Allow now l1),
                with_ips lim (<[key1 := {| limiter := l1'; lastAccess := now |}]> (ips lim)))).
  { subst spent1. rewrite E1. cbn [fst]. apply allow_ref_table. }
  set (lim1 := with_ips lim (<[key1 := {| limiter := l1'; lastAccess := now |}]> (ips lim)))
    in *.
  assert (E3 : got2 =
               (with_ips lim1 (<[key2 := {| limiter := bucket NewLimiter lim1 key2;
                                            lastAccess := now' |}]> (ips lim1)),
                Some (Entry key2 (bucket NewLimiter lim1 key2)))).
  { subst got2. rewrite E2. cbn [snd]. exact (GetLimiter_table lim1 now' a2 Hb2 Hw2). }
  split; [exact E1 | split; [exact E2 | split]].
  - intros H41 H42.
    pose proof (normalize_v6_iff c1 c2 ip1 ip2 Hp1 Hp2 H41 H42) as Hiff.
    fold key1 key2 in Hiff.
    split; [exact Hiff | split].
    + intros Htop. apply Hiff in Htop.
      assert (Eb : bucket NewLimiter lim1 key2 = l1').
      { unfold bucket, lim1. cbn [ips with_ips]. rewrite <- Htop.
        now rewrite lookup_insert_eq. }
      assert (Eg : got2 =
                   (with_ips lim (<[key1 := {| limiter := l1'; lastAccess := now' |}]>
                                    (ips lim)),
                    Some (Entry key1 l1'))).
      { rewrite E3, Eb, <- Htop. unfold lim1. cbn [ips with_ips].
        now rewrite insert_insert_eq. }
      split; [exact Eg|]. rewrite Eg. cbn [fst]. apply allow_ref_table.
    + intros Htop.
      assert (Hne : key1 <> key2) by (intros E; apply Htop, Hiff, E).
      assert (Eb : bucket NewLimiter lim1 key2 = l2).
      { unfold bucket, lim1. cbn [ips with_ips r b].
        now rewrite lookup_insert_ne by exact Hne. }
      assert (Eg : got2 =
                   (with_ips lim (<[key2 := {| limiter := l2; lastAccess := now' |}]>
                                    (<[key1 := {| limiter := l1'; lastAccess := now |}]>
                                       (ips lim))),
                    Some (Entry key2 l2))).
      { rewrite E3, Eb. reflexivity. }
      split; [exact Eg|]. rewrite Eg. cbn [fst]. apply allow_ref_table.
  - intros H4. unfold key1, normalizeIPForRateLimit. rewrite Hp1.
    now destruct (To4 ip1).
Qed.

End WithLimiter.

Lemma slash64_buckets_witness :
  let got1 := GetLimiter counter_new plain 0 "2001:db8::1" in
  let spent1 := allow_ref counter_allow (fst got1) 0 (Entry "2001:db8::/64" 20%Z) in
  let got2 := GetLimiter counter_new (snd spent1) 1 "2001:db8::ffff" in
  snd got1 = Some (Entry "2001:db8::/64" 20%Z) /\
  snd got2 = Some (Entry "2001:db8::/64" 19%Z) /\
  ips (snd (allow_ref counter_allow (fst got2) 1 (Entry "2001:db8::/64" 19%Z))) =
  {[ "2001:db8::/64" := {| limiter := 18%Z; lastAccess := 1%Z |} ]}.
Proof.
  assert (Hp1 : ParseIP (extractIPFromAddress "2001:db8::1") =
                Some [32; 1; 13; 184; 0; 0; 0; 0; 0; 0; 0; 0; 0; 0; 0; 1]%Z)
    by (vm_compute; reflexivity).
  assert (Hp2 : ParseIP (extractIPFromAddress "2001:db8::ffff") =
                Some [32; 1; 13; 184; 0; 0; 0; 0; 0; 0; 0; 0; 0; 0; 255; 255]%Z)
    by (vm_compute; reflexivity).
  pose proof (slash64_buckets counter_new counter_allow plain 0 1
                "2001:db8::1" "2001:db8::ffff" _ _ Hp1 Hp2
                eq_refl eq_refl eq_refl eq_refl) as H.
  cbv zeta in H. destruct H as (E1 & _ & H & _).
  destruct (H eq_refl eq_refl) as (_ & Hsame & _).
  destruct (Hsame eq_refl) as [E2 E3].
  cbv zeta. split; [|split].
  - rewrite E1. vm_compute. reflexivity.
  - etransitivity; [|etransitivity; [exact (f_equal snd E2)|]]; vm_compute; reflexivity.
  - etransitivity; [|etransitivity; [exact (f_equal (fun p => ips (snd p)) E3)|]];
      vm_compute; reflexivity.
Defined.

(** The claim as first stated fails twice.  An address of the allow list is
    handed a new limiter on every call and spends from no table entry, while
    another address with the same upper 64 bits spends from the entry of the
    /64; and two IPv4-mapped IPv6 addresses have the same upper 64 bits but
    are keyed by their own texts. *)
Lemma shared_upper_bits_without_shared_bucket :
  (take 8 <$> ParseIP "2001:db8::1") = (take 8 <$> ParseIP "2001:db8::2") /\
  GetLimiter counter_new allow_one 0 "2001:db8::1" = (allow_one, Some (Fresh 20%Z)) /\
  snd (GetLimiter counter_new allow_one 0 "2001:db8::2") =
  Some (Entry "2001:db8::/64" 20%Z) /\
  (take 8 <$> ParseIP "::ffff:192.0.2.1") = (take 8 <$> ParseIP "::ffff:192.0.2.2") /\
  normalizeIPForRateLimit "::ffff:192.0.2.1" <> normalizeIPForRateLimit "::ffff:192.0.2.2".
Proof.
  repeat split; try (vm_compute; reflexivity).
  vm_compute. discriminate.
Qed.

End BucketKeys.
